(** * Winsper: the recording / transcription pipeline

    Shallow embedding of the Rust backend as it is written in the
    repository's design document (the code blocks of sections 3 to 6:
    [start_hotkey_listener], [start_audio_recording],
    [build_input_stream], [compute_rms], [stop_audio_and_transcribe],
    [set_active_model], [run_whisper_on_buffer], [copy_to_clipboard],
    [simulate_ctrl_v], [copy_to_clipboard_and_paste]).

    The backend is event driven: the keyboard hook, the audio callback,
    the worker threads and the Tauri command all act on three shared
    objects ([RecordingState], [SharedAudio], [SharedWhisper]).  The
    embedding threads one [System] value through a deterministic [step]
    function, one input at a time.  The lock-protected prologue of each
    spawned thread runs within the step of the toggle that spawned it;
    the inference, which is the slow part, is left in flight as a [Job]
    until its own [WorkerDone] input arrives.

    Around the backend the file embeds what meets it: the tray and window
    handlers of [main], the frontend of the same document (the listeners,
    the level bar, the model settings), [simulate_paste] as the
    development log records it, and the components [Overlay] and [App]
    of the React frontend. *)

From Stdlib Require Import String List Bool Arith Lia ZArith NArith.
From Stdlib Require Import QArith Qround Qpower Qabs Qreduction Lqa.
Import ListNotations.
Close Scope Q_scope.

Set Implicit Arguments.

(** ** Plain data *)

Inductive Result (A E : Type) : Type :=
| Ok (a : A)
| Err (e : E).
Arguments Ok {A E} a.
Arguments Err {A E} e.

(** A Rust [char] is a Unicode scalar value; a [String] is a sequence of
    them. *)
Definition char := N.
Definition text := list char.

(** [char::is_whitespace]: the code points with the White_Space property. *)
Definition is_whitespace (c : char) : bool :=
  ((9 <=? c) && (c <=? 13) || (c =? 32) || (c =? 133) || (c =? 160)
   || (c =? 5760) || (8192 <=? c) && (c <=? 8202) || (c =? 8232)
   || (c =? 8233) || (c =? 8239) || (c =? 8287) || (c =? 12288))%N.

Fixpoint trim_start (s : text) : text :=
  match s with
  | c :: s' => if is_whitespace c then trim_start s' else s
  | [] => []
  end.

Definition trim_end (s : text) : text := rev (trim_start (rev s)).

(** [str::trim] *)
Definition trim (s : text) : text := trim_end (trim_start s).

Definition PathBuf := string.

(** The keys and events of [rdev] that the backend looks at. *)
Inductive Key : Type :=
| ControlRight
| ControlLeft
| KeyV
| Alt
| UnknownKey (code : N).

Inductive EventType : Type :=
| KeyPress (k : Key)
| KeyRelease (k : Key)
| MouseMove.

Definition Key_eqb (a b : Key) : bool :=
  match a, b with
  | ControlRight, ControlRight => true
  | ControlLeft, ControlLeft => true
  | KeyV, KeyV => true
  | Alt, Alt => true
  | UnknownKey x, UnknownKey y => N.eqb x y
  | _, _ => false
  end.

(** ** Arithmetic on [f32]

    [compute_rms] is written over the operations it uses, so that the
    same text runs on every model of single-precision arithmetic. *)
Class F32Arith : Type := {
  f32 : Type;
  f32_zero : f32;
  f32_add : f32 -> f32 -> f32;
  f32_mul : f32 -> f32 -> f32;
  f32_div : f32 -> f32 -> f32;
  f32_sqrt : f32 -> f32;
  f32_of_usize : nat -> f32 }.

(** [cpal::Sample::to_f32] *)
Class Sample {A : F32Arith} (T : Type) : Type := to_f32 : T -> f32.

#[global] Instance Sample_f32 {A : F32Arith} : Sample f32 := fun x => x.

(** [fn compute_rms(samples: &[f32]) -> f32] *)
Definition compute_rms {A : F32Arith} (samples : list f32) : f32 :=
  match samples with
  | [] => f32_zero
  | _ :: _ =>
      let sum_sq := fold_left f32_add (map (fun s => f32_mul s s) samples) f32_zero in
      f32_sqrt (f32_div sum_sq (f32_of_usize (length samples)))
  end.

(** [slice::chunks(n)]: consecutive pieces of [n] elements, the last one
    possibly shorter; [k] counts the room left in the piece being filled,
    which is kept in reverse in [cur]. *)
Fixpoint chunks_aux {T : Type} (n k : nat) (cur : list T) (l : list T) : list (list T) :=
  match l with
  | [] => match cur with [] => [] | _ :: _ => [rev cur] end
  | x :: l' =>
      match k with
      | 0 => rev cur :: chunks_aux n (n - 1) [x] l'
      | S k' => chunks_aux n k' (x :: cur) l'
      end
  end.

Definition chunks {T : Type} (n : positive) (l : list T) : list (list T) :=
  match l with
  | [] => []
  | x :: l' => chunks_aux (Pos.to_nat n) (Pos.to_nat n - 1) [x] l'
  end.

(** ** The Whisper binding *)

Inductive SamplingStrategy : Type :=
| Greedy (best_of : Z).

Record FullParams : Type := {
  strategy : SamplingStrategy;
  language : option string;
  n_threads : Z }.

(** The part of [whisper_rs] that the backend calls.  [full] takes the
    context by mutable reference, hence it gives the context back. *)
Class WhisperApi {A : F32Arith} : Type := {
  WhisperContext : Type;
  WhisperContext_new : PathBuf -> Result WhisperContext string;
  full : WhisperContext -> FullParams -> list f32 -> WhisperContext * Result unit string;
  full_n_segments : WhisperContext -> Z;
  full_get_segment_text : WhisperContext -> Z -> Result text string }.

(** ** Notifications

    The event names that the frontend listens for; the backend emits them
    with [app.emit_all].  The diagnostic [hotkey_event] of the hotkey test
    page is left out. *)
Inductive Notification {A : F32Arith} : Type :=
| recording_started
| audio_level (rms : f32)
| recording_stopped
| transcription_started
| transcription_done (t : text)
| transcription_error
| no_model_selected.

(** ** Shared state *)

(** [cpal::Stream], with the channel count that its data callback
    captured from the device configuration (cpal reports at least one
    channel). *)
Record Stream : Type := { channels : positive }.

(** [struct AudioContext { stream: Option<cpal::Stream>, buffer: Vec<f32> }] *)
Record AudioContext {A : F32Arith} : Type := {
  stream : option Stream;
  buffer : list f32 }.

(** [struct WhisperState { ctx: Option<WhisperContext>, model_path: Option<PathBuf> }] *)
Record WhisperState {A : F32Arith} {W : WhisperApi} : Type := {
  ctx : option WhisperContext;
  model_path : option PathBuf }.

(** What lies outside the process: the system clipboard, the calls made
    to [Clipboard::set_text] and the key events handed to
    [rdev::simulate], oldest first. *)
Record Desktop : Type := {
  clipboard : option text;
  set_text_calls : list text;
  simulated : list EventType }.

(** How the clipboard answers one dispatch. *)
Record ClipboardEnv : Type := {
  clipboard_new_ok : bool;
  set_text_ok : bool }.

(** A worker thread spawned by [stop_audio_and_transcribe], holding its
    copy of the buffer; [job_session] numbers the recording it closes. *)
Record Job {A : F32Arith} : Type := {
  job_session : nat;
  job_buffer : list f32 }.

(** The whole backend.  [session_count] counts the recordings started so
    far and tags every notification with the recording it belongs to;
    [inference_calls] logs the buffers handed to [WhisperContext::full]. *)
Record System {A : F32Arith} {W : WhisperApi} : Type := {
  is_recording : bool;
  audio_ctx : AudioContext;
  whisper_state : WhisperState;
  workers : list Job;
  session_count : nat;
  emitted : list (nat * Notification);
  desktop : Desktop;
  inference_calls : list (list f32) }.

(** The state built by [setup]. *)
Definition init {A : F32Arith} {W : WhisperApi} : System := {|
  is_recording := false;
  audio_ctx := {| stream := None; buffer := [] |};
  whisper_state := {| ctx := None; model_path := None |};
  workers := [];
  session_count := 0;
  emitted := [];
  desktop := {| clipboard := None; set_text_calls := []; simulated := [] |};
  inference_calls := [] |}.

(** ** Model management and inference *)

(** [#[tauri::command] fn set_active_model]: the [?] returns before the
    state is written. *)
Definition set_active_model {A : F32Arith} {W : WhisperApi} (path : string) (ws : WhisperState)
  : Result unit string * WhisperState :=
  let model_path := path in
  match WhisperContext_new model_path with
  | Err e => (Err e, ws)
  | Ok c => (Ok tt, {| ctx := Some c; model_path := Some model_path |})
  end.

Definition params : FullParams := {|
  strategy := Greedy 1;
  language := Some "en"%string;
  n_threads := 4 |}.

Definition unwrap_or_default (r : Result text string) : text :=
  match r with
  | Ok t => t
  | Err _ => []
  end.

(** [for i in 0..num_segments { out.push_str(&seg) }], [n] iterations
    from index [i]. *)
Fixpoint push_segments {A : F32Arith} {W : WhisperApi} (c : WhisperContext) (i : Z) (n : nat) (out : text) : text :=
  match n with
  | 0 => out
  | S n' => push_segments c (i + 1)%Z n' (out ++ unwrap_or_default (full_get_segment_text c i))
  end.

(** The outcome of one call of [run_whisper_on_buffer]: the returned
    [Option<String>], the Whisper state after it and the buffers it
    handed to [full]. *)
Record WhisperRun {A : F32Arith} {W : WhisperApi} : Type := {
  run_text : option text;
  run_state : WhisperState;
  run_calls : list (list f32) }.

(** Modelled from the spec: the lookup of the context, which the source
    leaves out ([let ctx: &mut WhisperContext = /* ... */]); with no model
    loaded the call fails at once.  Everything from [FullParams::new] on
    is the source's. *)
Definition run_whisper_on_buffer {A : F32Arith} {W : WhisperApi} (samples : list f32) (ws : WhisperState)
  : WhisperRun :=
  match ctx ws with
  | None => {| run_text := None; run_state := ws; run_calls := [] |}
  | Some c =>
      let (c', r) := full c params samples in
      let ws' := {| ctx := Some c'; model_path := model_path ws |} in
      match r with
      | Err _ => {| run_text := None; run_state := ws'; run_calls := [samples] |}
      | Ok _ =>
          let num_segments := full_n_segments c' in
          let out := push_segments c' 0%Z (Z.to_nat num_segments) [] in
          {| run_text := Some (trim out); run_state := ws'; run_calls := [samples] |}
      end
  end.

(** ** Clipboard and paste *)

(** [fn copy_to_clipboard(text: &str)]: both failures are swallowed. *)
Definition copy_to_clipboard (t : text) (env : ClipboardEnv) (d : Desktop) : Desktop :=
  if clipboard_new_ok env then
    {| clipboard := if set_text_ok env then Some t else clipboard d;
       set_text_calls := set_text_calls d ++ [t];
       simulated := simulated d |}
  else d.

(** [fn simulate_ctrl_v()] *)
Definition simulate_ctrl_v (d : Desktop) : Desktop :=
  {| clipboard := clipboard d;
     set_text_calls := set_text_calls d;
     simulated := simulated d ++ [KeyPress ControlLeft; KeyPress KeyV;
                                  KeyRelease KeyV; KeyRelease ControlLeft] |}.

(** [fn copy_to_clipboard_and_paste(text: &str)] *)
Definition copy_to_clipboard_and_paste (t : text) (env : ClipboardEnv) (d : Desktop) : Desktop :=
  simulate_ctrl_v (copy_to_clipboard t env d).

(** ** The controller *)

Section Controller.

Context {A : F32Arith} {W : WhisperApi} {T : Type} {ST : Sample T}.

(** [app.emit_all(name, payload)], tagged with the recording [k]. *)
Definition emit_all (k : nat) (n : Notification) (s : System) : System :=
  {| is_recording := is_recording s; audio_ctx := audio_ctx s;
     whisper_state := whisper_state s; workers := workers s;
     session_count := session_count s;
     emitted := emitted s ++ [(k, n)];
     desktop := desktop s; inference_calls := inference_calls s |}.

Definition store_is_recording (b : bool) (s : System) : System :=
  {| is_recording := b; audio_ctx := audio_ctx s;
     whisper_state := whisper_state s; workers := workers s;
     session_count := session_count s; emitted := emitted s;
     desktop := desktop s; inference_calls := inference_calls s |}.

Definition with_audio_ctx (a : AudioContext) (s : System) : System :=
  {| is_recording := is_recording s; audio_ctx := a;
     whisper_state := whisper_state s; workers := workers s;
     session_count := session_count s; emitted := emitted s;
     desktop := desktop s; inference_calls := inference_calls s |}.

(** The recording that is open, or was closed last. *)
Definition current_session (s : System) : nat := pred (session_count s).

(** [fn start_audio_recording]: the spawned thread panics when there is
    no input device ([device = None]) and then stores nothing; otherwise
    [build_input_stream] starts the stream and stores it. *)
Definition start_audio_recording (device : option positive) (s : System) : System :=
  match device with
  | None => s
  | Some ch =>
      with_audio_ctx {| stream := Some {| channels := ch |};
                        buffer := buffer (audio_ctx s) |} s
  end.

(** [for frame in data.chunks(channels) { ctx.buffer.push(frame[0].to_f32()) }]:
    the samples that one call of the data callback pushes. *)
Definition pushed (ch : positive) (data : list T) : list f32 :=
  flat_map (fun frame => match frame with
                         | x :: _ => [to_f32 x]
                         | [] => []
                         end) (chunks ch data).

(** The data callback given to [device.build_input_stream]: the first
    channel of every frame is pushed, then the level of the whole buffer
    is emitted. *)
Definition input_callback (ch : positive) (data : list T) (s : System) : System :=
  let buf := buffer (audio_ctx s) ++ pushed ch data in
  let s1 := with_audio_ctx {| stream := stream (audio_ctx s); buffer := buf |} s in
  let rms := compute_rms buf in
  emit_all (current_session s) (audio_level rms) s1.

(** [fn stop_audio_and_transcribe], up to the end of the block that
    holds the audio lock: the stream is dropped, the buffer is copied and
    cleared, and the copy stays with the worker. *)
Definition stop_audio_and_transcribe (s : System) : System :=
  let buf_copy := buffer (audio_ctx s) in
  let s1 := with_audio_ctx {| stream := None; buffer := [] |} s in
  {| is_recording := is_recording s1; audio_ctx := audio_ctx s1;
     whisper_state := whisper_state s1;
     workers := workers s1 ++ [{| job_session := current_session s; job_buffer := buf_copy |}];
     session_count := session_count s1; emitted := emitted s1;
     desktop := desktop s1; inference_calls := inference_calls s1 |}.

(** The rest of the worker: inference, then clipboard, paste and the
    closing notification. *)
Definition finish_worker (j : Job) (env : ClipboardEnv) (s : System) : System :=
  let r := run_whisper_on_buffer (job_buffer j) (whisper_state s) in
  let s1 := {| is_recording := is_recording s; audio_ctx := audio_ctx s;
               whisper_state := run_state r; workers := workers s;
               session_count := session_count s; emitted := emitted s;
               desktop := desktop s;
               inference_calls := inference_calls s ++ run_calls r |} in
  match run_text r with
  | Some t =>
      let s2 := {| is_recording := is_recording s1; audio_ctx := audio_ctx s1;
                   whisper_state := whisper_state s1; workers := workers s1;
                   session_count := session_count s1; emitted := emitted s1;
                   desktop := copy_to_clipboard_and_paste t env (desktop s1);
                   inference_calls := inference_calls s1 |} in
      emit_all (job_session j) (transcription_done t) s2
  | None => emit_all (job_session j) transcription_error s1
  end.

(** The callback given to [rdev::listen] in [start_hotkey_listener]. *)
Definition callback (event_type : EventType) (device : option positive) (s : System) : System :=
  match event_type with
  | KeyPress key =>
      if Key_eqb key ControlRight then
        let currently := is_recording s in
        if negb currently then
          let s1 := store_is_recording true s in
          let s2 := {| is_recording := is_recording s1; audio_ctx := audio_ctx s1;
                       whisper_state := whisper_state s1; workers := workers s1;
                       session_count := S (session_count s1); emitted := emitted s1;
                       desktop := desktop s1; inference_calls := inference_calls s1 |} in
          let s3 := emit_all (current_session s2) recording_started s2 in
          start_audio_recording device s3
        else
          let s1 := store_is_recording false s in
          let s2 := emit_all (current_session s1) recording_stopped s1 in
          stop_audio_and_transcribe s2
      else s
  | _ => s
  end.

(** What can happen to the backend. *)
Inductive Input : Type :=
| Hook (event_type : EventType) (device : option positive)
| InputData (data : list T)
| WorkerDone (i : nat) (env : ClipboardEnv)
| InvokeSetActiveModel (path : string).

Fixpoint remove_nth {X : Type} (i : nat) (l : list X) : list X :=
  match l, i with
  | [], _ => []
  | _ :: l', 0 => l'
  | x :: l', S i' => x :: remove_nth i' l'
  end.

Definition step (s : System) (i : Input) : System :=
  match i with
  | Hook e device => callback e device s
  | InputData data =>
      match stream (audio_ctx s) with
      | Some st => input_callback (channels st) data s
      | None => s
      end
  | WorkerDone n env =>
      match nth_error (workers s) n with
      | Some j =>
          let s1 := {| is_recording := is_recording s; audio_ctx := audio_ctx s;
                       whisper_state := whisper_state s;
                       workers := remove_nth n (workers s);
                       session_count := session_count s; emitted := emitted s;
                       desktop := desktop s; inference_calls := inference_calls s |} in
          finish_worker j env s1
      | None => s
      end
  | InvokeSetActiveModel path =>
      {| is_recording := is_recording s; audio_ctx := audio_ctx s;
         whisper_state := snd (set_active_model path (whisper_state s));
         workers := workers s;
         session_count := session_count s; emitted := emitted s;
         desktop := desktop s; inference_calls := inference_calls s |}
  end.

Definition run (s : System) (inputs : list Input) : System := fold_left step inputs s.

End Controller.

Arguments Input T : clear implicits.

(** ** Single precision

    A finite [f32] is the rational it denotes; [None] stands for the
    values that are not finite (the infinities and NaN, which every
    operation of [compute_rms] passes on).  Each operation is the exact
    one followed by rounding to the nearest value with 24 significant
    bits, ties to the even significand, gradual underflow below
    [2 ^ -126] and overflow from [2 ^ 128]; the two zeros are not told
    apart. *)
Module Binary32.

Local Open Scope Q_scope.

Definition emin : Z := -149.

(** The exponent of a positive rational: [2 ^ mag x <= x < 2 ^ (mag x + 1)]. *)
Definition mag (x : Q) : Z :=
  let d := (Z.log2 (Qnum x) - Z.log2 (Zpos (Qden x)))%Z in
  if Qle_bool (2 ^ d) x then d else (d - 1)%Z.

(** The nearest integer, ties to even. *)
Definition rne (y : Q) : Z :=
  let f := Qfloor y in
  match Qcompare (y - inject_Z f) (1 # 2) with
  | Lt => f
  | Gt => (f + 1)%Z
  | Eq => if Z.even f then f else (f + 1)%Z
  end.

(** The exponent of the last place of a positive [x]: 24 significant
    bits, and no place below [2 ^ emin]. *)
Definition ulp_exp (x : Q) : Z := Z.max (mag x - 23) emin.

Definition round_pos (x : Q) : Q :=
  let q := ulp_exp x in
  (inject_Z (rne (x * 2 ^ (- q))) * 2 ^ q)%Q.

Definition round (x : Q) : Q :=
  match Qcompare x 0 with
  | Eq => 0%Q
  | Gt => round_pos x
  | Lt => (- round_pos (- x))%Q
  end.

(** The nearest integer to the square root of [y], ties to even. *)
Definition sqrt_rne (y : Q) : Z :=
  let f := Z.sqrt (Qfloor y) in
  match Qcompare y ((inject_Z f + (1 # 2)) * (inject_Z f + (1 # 2))) with
  | Lt => f
  | Gt => (f + 1)%Z
  | Eq => if Z.even f then f else (f + 1)%Z
  end.

(** The rounded square root of a positive rational. *)
Definition round_sqrt (x : Q) : Q :=
  let q := Z.max (mag x / 2 - 23) emin in
  (inject_Z (sqrt_rne (x * 2 ^ (- (2 * q)))) * 2 ^ q)%Q.

Definition finite (r : Q) : option Q :=
  if Qle_bool (2 ^ 128) (Qabs r) then None else Some (Qred r).

Definition t : Type := option Q.

Definition add (a b : t) : t :=
  match a, b with
  | Some x, Some y => finite (round (x + y))
  | _, _ => None
  end.

Definition mul (a b : t) : t :=
  match a, b with
  | Some x, Some y => finite (round (x * y))
  | _, _ => None
  end.

(** The only divisor in the program is a sample count, which is finite. *)
Definition div (a b : t) : t :=
  match a, b with
  | Some x, Some y =>
      if Qeq_bool y 0 then None else finite (round (x / y))
  | _, _ => None
  end.

Definition sqrt (a : t) : t :=
  match a with
  | Some x =>
      match Qcompare x 0 with
      | Eq => Some 0%Q
      | Gt => finite (round_sqrt x)
      | Lt => None
      end
  | None => None
  end.

(** [n as f32] *)
Definition of_usize (n : nat) : t := finite (round (inject_Z (Z.of_nat n))).

(** [a] is finite and lies between [lo] and [hi]. *)
Definition within (lo hi : Q) (a : t) : Prop :=
  exists x, a = Some x /\ lo <= x /\ x <= hi.

(** [a] is a zero. *)
Definition is_zero (a : t) : Prop := exists x, a = Some x /\ x == 0.

(** The bound that a rounded sum of [k] terms of [[0, 1]] cannot pass:
    a sum of ones stalls at [2 ^ 24]. *)
Definition cap (k : nat) : Q := inject_Z (Z.min (Z.of_nat k) (2 ^ 24)).

#[global] Instance arith : F32Arith := {|
  f32 := t;
  f32_zero := Some 0%Q;
  f32_add := add;
  f32_mul := mul;
  f32_div := div;
  f32_sqrt := sqrt;
  f32_of_usize := of_usize |}.

End Binary32.

(** ** A stand-in for the Whisper model

    A context keeps the segments of its last run.  Every path but the
    empty one loads; the model hears one word, with a space before it, in
    any audio that is not empty. *)
Module Stub.

Definition heard : text := [32; 104; 105]%N.

#[global] Instance api : @WhisperApi Binary32.arith := {|
  WhisperContext := list text;
  WhisperContext_new := fun path =>
    if String.eqb path EmptyString then Err "failed to open model"%string else Ok [];
  full := fun _ _ samples =>
    (match samples with [] => [] | _ :: _ => [heard] end, Ok tt);
  full_n_segments := fun c => Z.of_nat (length c);
  full_get_segment_text := fun c i =>
    match nth_error c (Z.to_nat i) with
    | Some seg => Ok seg
    | None => Err "no such segment"%string
    end |}.

Definition toggle : Input Binary32.t := Hook (KeyPress ControlRight) (Some 1%positive).

Definition clip_ok : ClipboardEnv := {| clipboard_new_ok := true; set_text_ok := true |}.


Definition half : Binary32.t := Some (1 # 2)%Q.

Definition job (k : nat) (samples : list Binary32.t) : Job :=
  {| job_session := k; job_buffer := samples |}.

(** The backend at start, and with a model loaded. *)
Definition start : System := init.

Definition loaded : System := step start (InvokeSetActiveModel (T := Binary32.t) "base.en.bin").

End Stub.

(** ** What an observer sees *)

Section Observations.

Context {A : F32Arith} {W : WhisperApi}.

(** The notifications of recording [k], oldest first. *)
Definition session_trace (k : nat) (s : System) : list Notification :=
  map snd (filter (fun p => Nat.eqb (fst p) k) (emitted s)).

(** The life of one recording as the backend drives it. *)
Inductive Phase : Type :=
| NotStarted
| Capturing
| Stopped
| Closed.

Definition next_phase (p : Phase) (n : Notification) : option Phase :=
  match p, n with
  | NotStarted, recording_started => Some Capturing
  | Capturing, audio_level _ => Some Capturing
  | Capturing, recording_stopped => Some Stopped
  | Stopped, transcription_done _ => Some Closed
  | Stopped, transcription_error => Some Closed
  | _, _ => None
  end.




(** Runs an automaton over a trace; [None] when some notification comes
    out of order. *)
Definition follow {P : Type} (next : P -> Notification -> option P)
  (start : P) (l : list Notification) : option P :=
  fold_left (fun st n => match st with Some p => next p n | None => None end)
            l (Some start).

Definition phase_of (l : list Notification) : option Phase := follow next_phase NotStarted l.




Definition is_terminal (n : Notification) : bool :=
  match n with
  | transcription_done _ | transcription_error | no_model_selected => true
  | _ => false
  end.

(** The recording flag as the notifications show it: raised by
    [recording_started], lowered by [recording_stopped]; [None] when two
    recordings overlap. *)
Definition next_flag (b : bool) (n : Notification) : option bool :=
  match n, b with
  | recording_started, false => Some true
  | recording_started, true => None
  | recording_stopped, true => Some false
  | recording_stopped, false => None
  | _, _ => Some b
  end.

Definition capture_flag (s : System) : option bool :=
  follow next_flag false (map snd (emitted s)).

Definition count_where (f : Notification -> bool) (s : System) : nat :=
  length (filter f (map snd (emitted s))).

Definition is_stopped (n : Notification) : bool :=
  match n with
  | recording_stopped => true
  | _ => false
  end.



(** The transcription jobs in flight. *)
Definition in_flight (s : System) : nat := length (workers s).

(** Single flight: at most one job in flight, and none while a recording
    is open. *)
Definition single_flight (s : System) : Prop :=
  in_flight s <= 1 /\ (is_recording s = true -> in_flight s = 0).


End Observations.

Section Sessions.

Context {A : F32Arith} {W : WhisperApi} {T : Type} {ST : Sample T}.

(** A press of the right Control key. *)
Definition is_toggle (i : Input T) : bool :=
  match i with
  | Hook (KeyPress key) _ => Key_eqb key ControlRight
  | _ => false
  end.




End Sessions.

(** ** Levels *)

Section Levels.

Context {W : @WhisperApi Binary32.arith} {T : Type} {ST : @Sample Binary32.arith T}.

(** Every sample of a callback, once converted, satisfies [P]. *)
Definition input_satisfies (P : Binary32.t -> Prop) (i : Input T) : Prop :=
  match i with
  | InputData data => Forall (fun x => P (to_f32 x)) data
  | _ => True
  end.

(** The samples of a callback are normalized: finite, in [[-1, 1]]. *)
Definition normalized_input : Input T -> Prop :=
  input_satisfies (Binary32.within (-1) 1).

(** All the samples that the callbacks receive. *)
Definition all_samples (inputs : list (Input T)) : list T :=
  flat_map (fun i => match i with
                     | InputData data => data
                     | _ => []
                     end) inputs.

(** If the notification is a level, the level satisfies [L]. *)
Definition level_satisfies (L : Binary32.t -> Prop) (n : Notification) : Prop :=
  match n with
  | audio_level r => L r
  | _ => True
  end.

Definition level_in_unit : Notification -> Prop :=
  level_satisfies (Binary32.within 0 1).

End Levels.

(** The key events of one paste. *)
Definition paste_keys : list EventType :=
  [KeyPress ControlLeft; KeyPress KeyV; KeyRelease KeyV; KeyRelease ControlLeft].

(** ** Resampling *)
Module Resampler.

(** [round (a / b)] for a positive [b], halves rounded up. *)
Definition round_div (a b : N) : N := ((2 * a + b) / (2 * b))%N.

(** Modelled from the spec: the length of the output of the resampler,
    [round (len * targetRate / sourceRate)]. *)
Definition output_length (len : nat) (sourceRate targetRate : positive) : nat :=
  N.to_nat (round_div (N.of_nat len * Npos targetRate) (Npos sourceRate)).

Section Resample.

Context {A : F32Arith}.

(** The interpolation kernel: from the input, the two rates and the index
    of an output sample, the value of that sample. *)
Variable interpolate : list f32 -> positive -> positive -> nat -> f32.

(** Modelled from the spec: [resample_to_16khz], of which the repository
    records the signature only.  Equal rates leave the samples as they
    are; otherwise the output has [round (len * targetRate / sourceRate)]
    samples, each computed from the input by the kernel. *)
Definition resample (samples : list f32) (sourceRate targetRate : positive) : list f32 :=
  if Pos.eqb sourceRate targetRate then samples
  else map (interpolate samples sourceRate targetRate)
           (seq 0 (output_length (length samples) sourceRate targetRate)).

(** The simplest kernel, for running [resample]: the input sample at or
    before the position of the output sample. *)
Definition hold (samples : list f32) (sourceRate targetRate : positive) (i : nat) : f32 :=
  nth (N.to_nat (N.of_nat i * Npos sourceRate / Npos targetRate)) samples f32_zero.

End Resample.

End Resampler.

(** ** Invariants of the reachable states *)

Section Invariants.

Context {A : F32Arith} {W : WhisperApi}.

Definition has_job (k : nat) (s : System) : bool :=
  existsb (fun j => Nat.eqb (job_session j) k) (workers s).

(** The phase in which the state holds recording [k]. *)
Definition expected_phase (s : System) (k : nat) : Phase :=
  if session_count s <=? k then NotStarted
  else if is_recording s && Nat.eqb k (current_session s) then Capturing
  else if has_job k s then Stopped
  else Closed.

Record Invariant (s : System) : Prop := {
  inv_flag : capture_flag s = Some (is_recording s);
  inv_jobs : in_flight s + count_where is_terminal s = count_where is_stopped s;
  inv_idle : is_recording s = false ->
             buffer (audio_ctx s) = [] /\ stream (audio_ctx s) = None;
  inv_started : is_recording s = true -> 0 < session_count s;
  inv_phase : forall k, phase_of (session_trace k s) = Some (expected_phase s k);
  inv_nodup : NoDup (map job_session (workers s));
  inv_bound : forall j, In j (workers s) ->
              job_session j < session_count s /\
              (is_recording s = true -> job_session j <> current_session s) }.

End Invariants.

(** ** What a run leaves behind *)

Section Transcripts.

Context {A : F32Arith} {W : WhisperApi} {T : Type} {ST : Sample T}.

(** The texts announced by [transcription_done], oldest first. *)
Definition done_texts (s : System) : list text :=
  flat_map (fun p => match snd p with
                     | transcription_done t => [t]
                     | _ => []
                     end) (emitted s).

(** Whether the model file at [path] loads. *)
Definition loads (path : PathBuf) : bool :=
  match WhisperContext_new path with
  | Ok _ => true
  | Err _ => false
  end.

(** The path given to the last [set_active_model] that loaded. *)
Definition active_model (inputs : list (Input T)) : option PathBuf :=
  fold_left (fun acc i => match i with
                          | InvokeSetActiveModel path => if loads path then Some path else acc
                          | _ => acc
                          end) inputs None.



(** The presses of the right Control key among [inputs]. *)
Definition toggles (inputs : list (Input T)) : nat := length (filter is_toggle inputs).

(** What one step does to the Whisper state, the desktop, the log of
    inference calls and the transcripts announced: only the end of a
    worker touches the last three, only it and a load touch the first. *)
Inductive StepKind (s : System) (i : Input T) : Prop :=
| QuietStep :
    whisper_state (step s i) = whisper_state s ->
    desktop (step s i) = desktop s ->
    inference_calls (step s i) = inference_calls s ->
    done_texts (step s i) = done_texts s ->
    count_where is_terminal (step s i) = count_where is_terminal s ->
    (forall path, i <> InvokeSetActiveModel path) ->
    StepKind s i
| LoadStep (path : string) :
    i = InvokeSetActiveModel path ->
    whisper_state (step s i) = snd (set_active_model path (whisper_state s)) ->
    desktop (step s i) = desktop s ->
    inference_calls (step s i) = inference_calls s ->
    done_texts (step s i) = done_texts s ->
    count_where is_terminal (step s i) = count_where is_terminal s ->
    StepKind s i
| FinishStep (n : nat) (env : ClipboardEnv) (j : Job) :
    i = WorkerDone n env ->
    whisper_state (step s i)
    = run_state (run_whisper_on_buffer (job_buffer j) (whisper_state s)) ->
    inference_calls (step s i)
    = inference_calls s ++ run_calls (run_whisper_on_buffer (job_buffer j) (whisper_state s)) ->
    count_where is_terminal (step s i) = S (count_where is_terminal s) ->
    match run_text (run_whisper_on_buffer (job_buffer j) (whisper_state s)) with
    | Some t =>
        desktop (step s i) = copy_to_clipboard_and_paste t env (desktop s) /\
        done_texts (step s i) = done_texts s ++ [t]
    | None =>
        desktop (step s i) = desktop s /\ done_texts (step s i) = done_texts s
    end ->
    StepKind s i.

End Transcripts.

(** No white space at either end. *)
Definition trimmed (t : text) : bool :=
  match t with
  | [] => true
  | c :: _ => negb (is_whitespace c) && negb (is_whitespace (last t c))
  end.


(** ** The paste of the development log

    [simulate_paste] as the development log records it: every call of
    [rdev::simulate] is followed by [?], so the function leaves at the
    first call that fails. *)
Module Log.

(** The keyboard as [rdev::simulate] reaches it: the events injected so
    far, oldest first. *)
Definition Keyboard : Type := list EventType.

(** How [rdev::simulate] answers, given the events injected so far and
    the one to inject; [Err] carries the message that [?] returns. *)
Definition Simulator : Type := Keyboard -> EventType -> Result unit string.

(** A computation on the keyboard that may fail with a message. *)
Definition M (X : Type) : Type := Keyboard -> Keyboard * Result X string.

Definition ret {X : Type} (x : X) : M X := fun kb => (kb, Ok x).

(** [m?] followed by [k]. *)
Definition bind {X Y : Type} (m : M X) (k : X -> M Y) : M Y :=
  fun kb =>
    match m kb with
    | (kb', Ok x) => k x kb'
    | (kb', Err msg) => (kb', Err msg)
    end.

Notation "m >> k" := (bind m (fun _ => k)) (at level 61, right associativity).

(** [simulate(&event)] *)
Definition simulate (sim : Simulator) (e : EventType) : M unit :=
  fun kb =>
    match sim kb e with
    | Ok _ => (kb ++ [e], Ok tt)
    | Err msg => (kb, Err msg)
    end.

(** [fn simulate_paste() -> Result<(), String>] *)
Definition simulate_paste (sim : Simulator) : M unit :=
  simulate sim (KeyPress ControlLeft) >>
  simulate sim (KeyPress KeyV) >>
  simulate sim (KeyRelease KeyV) >>
  simulate sim (KeyRelease ControlLeft) >>
  ret tt.

(** Whether the key [k] is down after the events [kb]. *)
Definition held (k : Key) (kb : Keyboard) : bool :=
  fold_left (fun h e => match e with
                        | KeyPress k' => if Key_eqb k k' then true else h
                        | KeyRelease k' => if Key_eqb k k' then false else h
                        | MouseMove => h
                        end) kb false.

(** A simulator that injects the first [n] events it is given and
    refuses the next ones. *)
Definition refuses_after (start n : nat) : Simulator :=
  fun kb _ => if length kb <? start + n then Ok tt else Err "simulate failed"%string.

End Log.

(** ** The tray and the main window

    The handlers that [main] gives to [on_system_tray_event] and
    [on_window_event], and the [setup] hook. *)
Module Tray.

Inductive SystemTrayEvent : Type :=
| MenuItemClick (id : string)
| LeftClick
| RightClick
| DoubleClick.

Inductive WindowEvent : Type :=
| CloseRequested
| Focused (b : bool)
| Moved.

Inductive Event : Type :=
| OnSystemTray (e : SystemTrayEvent)
| OnWindow (e : WindowEvent).

(** Which calls on the window succeed while one event is handled; the
    handlers drop every error with [.ok()] or [unwrap_or]. *)
Record WindowEnv : Type := {
  is_visible_ok : bool;
  hide_ok : bool;
  show_ok : bool;
  set_focus_ok : bool }.

(** The main window and the process: [closed] once the window has been
    closed, [exited] once [std::process::exit] has run. *)
Record App : Type := {
  visible : bool;
  focused : bool;
  closed : bool;
  exited : bool }.

(** [window.hide().ok()] *)
Definition hide (env : WindowEnv) (a : App) : App :=
  if hide_ok env
  then {| visible := false; focused := false; closed := closed a; exited := exited a |}
  else a.

(** [window.show().ok()] *)
Definition show (env : WindowEnv) (a : App) : App :=
  if show_ok env
  then {| visible := true; focused := focused a; closed := closed a; exited := exited a |}
  else a.

(** [window.set_focus().ok()] *)
Definition set_focus (env : WindowEnv) (a : App) : App :=
  if set_focus_ok env
  then {| visible := visible a; focused := true; closed := closed a; exited := exited a |}
  else a.

(** [window.is_visible().unwrap_or(false)] *)
Definition is_visible (env : WindowEnv) (a : App) : bool :=
  if is_visible_ok env then visible a else false.

(** [std::process::exit(0)] *)
Definition exit (a : App) : App :=
  {| visible := visible a; focused := focused a; closed := closed a; exited := true |}.

(** The closure given to [setup]. *)
Definition setup (env : WindowEnv) (a : App) : App := hide env a.

(** The closure given to [on_system_tray_event]. *)
Definition on_system_tray_event (env : WindowEnv) (event : SystemTrayEvent) (a : App) : App :=
  match event with
  | MenuItemClick id =>
      if String.eqb id "show_hide" then
        if is_visible env a then hide env a
        else set_focus env (show env a)
      else if String.eqb id "quit" then exit a
      else a
  | _ => a
  end.

(** The closure given to [on_window_event]; the boolean tells whether it
    called [api.prevent_close()]. *)
Definition on_window_event (env : WindowEnv) (event : WindowEvent) (a : App) : App * bool :=
  match event with
  | CloseRequested => (hide env a, true)
  | _ => (a, false)
  end.

(** One event as the runtime handles it: a process that has exited
    handles nothing, and a close request that no handler prevents closes
    the window. *)
Definition handle (a : App) (i : WindowEnv * Event) : App :=
  let (env, event) := i in
  if exited a then a
  else match event with
       | OnSystemTray e => on_system_tray_event env e a
       | OnWindow e =>
           let (a1, prevented) := on_window_event env e a in
           match e with
           | CloseRequested =>
               if prevented then a1
               else {| visible := false; focused := false; closed := true;
                       exited := exited a1 |}
           | _ => a1
           end
       end.

(** The application from [setup] on. *)
Definition run (env0 : WindowEnv) (a : App) (events : list (WindowEnv * Event)) : App :=
  fold_left handle events (setup env0 a).

(** The window as the window manager creates it. *)
Definition created : App :=
  {| visible := true; focused := true; closed := false; exited := false |}.

Definition all_ok : WindowEnv :=
  {| is_visible_ok := true; hide_ok := true; show_ok := true; set_focus_ok := true |}.

Definition is_quit (i : WindowEnv * Event) : bool :=
  match snd i with
  | OnSystemTray (MenuItemClick id) => String.eqb id "quit"
  | _ => false
  end.

Definition is_show_hide (i : WindowEnv * Event) : bool :=
  match snd i with
  | OnSystemTray (MenuItemClick id) => String.eqb id "show_hide"
  | _ => false
  end.

End Tray.

(** ** JavaScript values

    A number of the frontend is a double: NaN, an infinity, or a finite
    value, taken as the rational it denotes (the two zeros are not told
    apart).  A string is the sequence of its code points. *)
Inductive JsNumber : Type :=
| NaN
| PosInf
| NegInf
| Fin (q : Q).

Inductive JsValue : Type :=
| JsNull
| JsNum (n : JsNumber)
| JsStr (s : text).

(** A string literal of the source, whose characters are all ASCII. *)
Definition lit (s : string) : text :=
  map (fun c => Ascii.N_of_ascii c) (list_ascii_of_string s).

(** [a < b] *)
Definition js_lt (a b : JsNumber) : bool :=
  match a, b with
  | NaN, _ | _, NaN => false
  | _, NegInf => false
  | NegInf, _ => true
  | PosInf, _ => false
  | Fin _, PosInf => true
  | Fin x, Fin y => negb (Qle_bool y x)
  end.

(** [Math.max(a, b)] *)
Definition Math_max (a b : JsNumber) : JsNumber :=
  match a, b with
  | NaN, _ | _, NaN => NaN
  | _, _ => if js_lt a b then b else a
  end.

(** [Math.min(a, b)] *)
Definition Math_min (a b : JsNumber) : JsNumber :=
  match a, b with
  | NaN, _ | _, NaN => NaN
  | _, _ => if js_lt b a then b else a
  end.

(** Whether a value counts as true. *)
Definition truthy (v : JsValue) : bool :=
  match v with
  | JsNull => false
  | JsNum NaN => false
  | JsNum (Fin q) => negb (Qeq_bool q 0)
  | JsNum _ => true
  | JsStr [] => false
  | JsStr (_ :: _) => true
  end.

(** [a || b] *)
Definition js_or (a b : JsValue) : JsValue := if truthy a then a else b.

(** ** The frontend of the design document

    The listeners of section 7.2 and the level bar of section 7.3, fed
    with the notifications of the backend. *)
Module Frontend.

(** A level as it reaches the frontend: a number, or [null] ([None]). *)
Definition Level : Type := option JsNumber.

(** The state that the listeners set. *)
Record View : Type := {
  isRecording : bool;
  audioLevel : Level;
  lastTranscript : option text }.

(** The payload of [audio_level]: JSON has no NaN and no infinity, and
    the serializer writes [null] for them. *)
Definition level_payload (rms : Binary32.t) : Level :=
  match rms with
  | Some q => Some (Fin q)
  | None => None
  end.

(** The four listeners registered in [useEffect]; the notifications with
    no listener change nothing. *)
Definition listener (v : View) (n : Notification (A := Binary32.arith)) : View :=
  match n with
  | recording_started =>
      {| isRecording := true; audioLevel := audioLevel v; lastTranscript := lastTranscript v |}
  | recording_stopped =>
      {| isRecording := false; audioLevel := audioLevel v; lastTranscript := lastTranscript v |}
  | audio_level rms =>
      {| isRecording := isRecording v; audioLevel := level_payload rms;
         lastTranscript := lastTranscript v |}
  | transcription_done t =>
      {| isRecording := isRecording v; audioLevel := audioLevel v; lastTranscript := Some t |}
  | _ => v
  end.

(** The view after the notifications [l], delivered in order. *)
Definition deliver (v : View) (l : list (nat * Notification (A := Binary32.arith))) : View :=
  fold_left listener (map snd l) v.

(** [ToNumber] of a level: [null] counts as zero. *)
Definition ToNumber (level : Level) : JsNumber :=
  match level with
  | Some n => n
  | None => Fin 0%Q
  end.

(** [const clamped = Math.min(Math.max(level, 0), 1)] *)
Definition clamped (level : Level) : JsNumber :=
  Math_min (Math_max (ToNumber level) (Fin 0%Q)) (Fin 1%Q).

(** [WaveformOverlay]: nothing when not recording, else a bar whose
    height is the fraction [clamped] of its track. *)
Definition WaveformOverlay (level : Level) (isRecording : bool) : option JsNumber :=
  if negb isRecording then None else Some (clamped level).

End Frontend.

(** ** The model settings of the design document *)

Section ModelSettings.

Context {A : F32Arith} {W : WhisperApi}.

(** [onSetModel] of the component [ModelSettings]: the command
    [set_active_model] is invoked with the path typed in, and the status
    line tells how it ended.  The result is the Whisper state of the
    backend after the command and the new status. *)
Definition onSetModel (modelPath : string) (ws : WhisperState) : WhisperState * string :=
  match set_active_model modelPath ws with
  | (Ok _, ws') => (ws', "Model loaded"%string)
  | (Err e, ws') => (ws', ("Error: " ++ e)%string)
  end.

End ModelSettings.

(** ** The overlay window

    The component [Overlay] as the first of the two versions kept in
    [Overlay.tsx] has it. *)
Module Overlay.

Inductive OverlayState : Type :=
| recording
| transcribing
| error
| no_model
| idle.

(** The two pieces of state of the component. *)
Record Model : Type := {
  state : OverlayState;
  errorMessage : JsValue }.

(** [useState("recording")], [useState("")] *)
Definition initial : Model := {| state := recording; errorMessage := JsStr [] |}.

(** An event as the listeners see it. *)
Record Event : Type := {
  name : string;
  payload : JsValue }.

(** Where a listener is registered: [listen] (events broadcast to the
    application) or [window.listen] (events sent to this window). *)
Inductive Channel : Type :=
| Global
| WindowSpecific.

Definition setState (x : OverlayState) (m : Model) : Model :=
  {| state := x; errorMessage := errorMessage m |}.

Definition setErrorMessage (v : JsValue) (m : Model) : Model :=
  {| state := state m; errorMessage := v |}.

(** The listeners of [setupListeners], by channel and event name. *)
Definition listener (m : Model) (i : Channel * Event) : Model :=
  let (ch, e) := i in
  match ch with
  | Global =>
      if String.eqb (name e) "recording_started" then
        setErrorMessage (JsStr []) (setState recording m)
      else if String.eqb (name e) "recording_stopped" then m
      else if String.eqb (name e) "transcription_started" then setState transcribing m
      else if String.eqb (name e) "transcription_done" then setState idle m
      else if String.eqb (name e) "transcription_error" then
        setErrorMessage (payload e) (setState error m)
      else if String.eqb (name e) "no_model_selected" then setState no_model m
      else m
  | WindowSpecific =>
      if String.eqb (name e) "transcription_started" then setState transcribing m
      else if String.eqb (name e) "transcription_done" then setState idle m
      else if String.eqb (name e) "transcription_error" then
        setErrorMessage (payload e) (setState error m)
      else m
  end.

Definition run (m : Model) (events : list (Channel * Event)) : Model :=
  fold_left listener events m.

(** The line of text that the component renders, if any. *)
Definition label (m : Model) : option JsValue :=
  match state m with
  | recording => Some (JsStr (lit "Listening..."))
  | transcribing => Some (JsStr (lit "Transcribing..."))
  | error => Some (js_or (errorMessage m) (JsStr (lit "Error occurred")))
  | no_model => Some (JsStr (lit "No model selected"))
  | idle => None
  end.

(** Whether some listener of the channel sets the state on the event. *)
Definition sets_state (i : Channel * Event) : bool :=
  let (ch, e) := i in
  match ch with
  | Global =>
      String.eqb (name e) "recording_started"
      || String.eqb (name e) "transcription_started"
      || String.eqb (name e) "transcription_done"
      || String.eqb (name e) "transcription_error"
      || String.eqb (name e) "no_model_selected"
  | WindowSpecific =>
      String.eqb (name e) "transcription_started"
      || String.eqb (name e) "transcription_done"
      || String.eqb (name e) "transcription_error"
  end.

End Overlay.

(** ** The main window: activity log and microphone

    The activity log of the first version of [App.tsx] and the microphone
    name of the second. *)
Module App.

Inductive ActivityType : Type :=
| transcription
| error
| info.

(** [interface ActivityItem]; the time stamp is in milliseconds. *)
Record ActivityItem : Type := {
  id : N;
  type : ActivityType;
  message : JsValue;
  timestamp : Z }.

(** The state that the listeners of the first version of the component
    set. *)
Record Model : Type := {
  lastHotkey : JsValue;
  isRecording : bool;
  activities : list ActivityItem;
  activityId : N }.

(** [useState("None")], [useState(false)], [useState([])], [useState(0)] *)
Definition initial : Model :=
  {| lastHotkey := JsStr (lit "None"); isRecording := false;
     activities := []; activityId := 0 |}.

(** [prev + 1] on a double that holds a natural number up to [2 ^ 53]:
    at [2 ^ 53] the sum rounds back to [2 ^ 53]. *)
Definition plus_one (prev : N) : N := if (prev <? 2 ^ 53)%N then (prev + 1)%N else prev.

(** [acts.slice(0, 49)] *)
Definition slice_0_49 (acts : list ActivityItem) : list ActivityItem := firstn 49 acts.

(** [addActivity(type, message)], run at the time [now]; both updaters
    run once, as they do in a production build. *)
Definition addActivity (now : Z) (ty : ActivityType) (msg : JsValue) (m : Model) : Model :=
  let newId := plus_one (activityId m) in
  {| lastHotkey := lastHotkey m; isRecording := isRecording m;
     activities := {| id := newId; type := ty; message := msg; timestamp := now |}
                   :: slice_0_49 (activities m);
     activityId := newId |}.

Definition setIsRecording (b : bool) (m : Model) : Model :=
  {| lastHotkey := lastHotkey m; isRecording := b;
     activities := activities m; activityId := activityId m |}.

Definition setLastHotkey (v : JsValue) (m : Model) : Model :=
  {| lastHotkey := v; isRecording := isRecording m;
     activities := activities m; activityId := activityId m |}.

(** What happens to the component: an event reaches the listeners, or
    one of [handleDownload] and [handleLoad] reports its outcome. *)
Inductive Action : Type :=
| Listen (name : string) (payload : JsValue)
| Report (ty : ActivityType) (msg : JsValue).

(** The activity that an action logs, if any. *)
Definition logged (a : Action) : option (ActivityType * JsValue) :=
  match a with
  | Listen name payload =>
      if String.eqb name "recording_started" then
        Some (info, JsStr (lit "Recording started..."))
      else if String.eqb name "recording_stopped" then
        Some (info, JsStr (lit "Recording stopped, processing..."))
      else if String.eqb name "transcription_done" then Some (transcription, payload)
      else if String.eqb name "transcription_error" then Some (error, payload)
      else None
  | Report ty msg => Some (ty, msg)
  end.

(** One action at the time [now].  The listeners of the download events
    set other state than the one kept here. *)
Definition handle (m : Model) (i : Z * Action) : Model :=
  let (now, a) := i in
  match a with
  | Listen name payload =>
      if String.eqb name "hotkey_event" then setLastHotkey payload m
      else if String.eqb name "recording_started" then
        addActivity now info (JsStr (lit "Recording started...")) (setIsRecording true m)
      else if String.eqb name "recording_stopped" then
        addActivity now info (JsStr (lit "Recording stopped, processing..."))
                    (setIsRecording false m)
      else if String.eqb name "transcription_done" then addActivity now transcription payload m
      else if String.eqb name "transcription_error" then addActivity now error payload m
      else m
  | Report ty msg => addActivity now ty msg m
  end.

Definition run (m : Model) (actions : list (Z * Action)) : Model :=
  fold_left handle actions m.

(** The items that the actions log, oldest first, numbered from
    [k + 1]. *)
Fixpoint numbered (k : N) (actions : list (Z * Action)) : list ActivityItem :=
  match actions with
  | [] => []
  | (now, a) :: rest =>
      match logged a with
      | Some (ty, msg) =>
          {| id := k + 1; type := ty; message := msg; timestamp := now |}
          :: numbered (k + 1) rest
      | None => numbered k rest
      end
  end.




End App.

(** * Properties *)

Section ControllerFacts.

Context {A : F32Arith} {W : WhisperApi} {T : Type} {ST : Sample T}.

Lemma run_app (s : System) (l1 l2 : list (Input T)) :
  run s (l1 ++ l2) = run (run s l1) l2.
Proof. unfold run. apply fold_left_app. Qed.

Lemma run_snoc (s : System) (l : list (Input T)) (i : Input T) :
  run s (l ++ [i]) = step (run s l) i.
Proof. rewrite run_app. reflexivity. Qed.

Lemma follow_snoc {P : Type} (next : P -> Notification -> option P)
  (start : P) (l : list Notification) (n : Notification) :
  follow next start (l ++ [n]) =
  match follow next start l with Some p => next p n | None => None end.
Proof. unfold follow. rewrite fold_left_app. reflexivity. Qed.

Lemma capture_flag_snoc (s s' : System) (k : nat) (n : Notification) :
  emitted s' = emitted s ++ [(k, n)] ->
  capture_flag s' =
  match capture_flag s with Some b => next_flag b n | None => None end.
Proof.
  intros E. unfold capture_flag. rewrite E, map_app. simpl.
  apply follow_snoc.
Qed.

Lemma count_where_snoc (f : Notification -> bool) (s s' : System) (k : nat)
  (n : Notification) :
  emitted s' = emitted s ++ [(k, n)] ->
  count_where f s' = count_where f s + (if f n then 1 else 0).
Proof.
  intros E. unfold count_where. rewrite E, map_app, filter_app, length_app.
  simpl. destruct (f n); reflexivity.
Qed.

Lemma session_trace_snoc (s s' : System) (k k' : nat) (n : Notification) :
  emitted s' = emitted s ++ [(k, n)] ->
  session_trace k' s' =
  if Nat.eqb k k' then session_trace k' s ++ [n] else session_trace k' s.
Proof.
  intros E. unfold session_trace. rewrite E, filter_app, map_app. simpl.
  destruct (Nat.eqb k k'); simpl; [reflexivity | apply app_nil_r].
Qed.

Lemma phase_of_snoc (l : list Notification) (n : Notification) :
  phase_of (l ++ [n]) =
  match phase_of l with Some p => next_phase p n | None => None end.
Proof. apply follow_snoc. Qed.

Lemma has_job_app (k : nat) (s : System) (j : Job) (l : list Job) :
  workers s = l ++ [j] ->
  has_job k s = existsb (fun j => Nat.eqb (job_session j) k) l || Nat.eqb (job_session j) k.
Proof.
  intros E. unfold has_job. rewrite E, existsb_app. simpl.
  rewrite orb_false_r. reflexivity.
Qed.

Lemma remove_nth_In {X : Type} (n : nat) (l : list X) (x : X) :
  In x (remove_nth n l) -> In x l.
Proof.
  revert n. induction l as [|y l IH]; intros [|n] H; simpl in *; auto.
  destruct H as [H|H]; eauto.
Qed.

Lemma remove_nth_length {X : Type} (n : nat) (l : list X) (x : X) :
  nth_error l n = Some x -> S (length (remove_nth n l)) = length l.
Proof.
  revert n. induction l as [|y l IH]; intros [|n] H; simpl in *;
    try discriminate; auto.
Qed.

Lemma remove_nth_NoDup (n : nat) (l : list Job) :
  NoDup (map job_session l) -> NoDup (map job_session (remove_nth n l)).
Proof.
  revert n. induction l as [|y l IH]; intros [|n] H; simpl in *; auto.
  - inversion H; assumption.
  - inversion H as [|? ? Hn Hd]; subst. constructor; auto.
    intros Hin. apply Hn. apply in_map_iff in Hin.
    destruct Hin as [j [Ej Hj]]. apply in_map_iff. exists j. split; auto.
    eapply remove_nth_In; eauto.
Qed.

(** Once its job is taken out, a recording has no job left; the jobs of
    the other recordings stay. *)
Lemma remove_nth_existsb (n : nat) (l : list Job) (j : Job) (k : nat) :
  NoDup (map job_session l) -> nth_error l n = Some j ->
  existsb (fun j' => Nat.eqb (job_session j') k) (remove_nth n l) =
  if Nat.eqb (job_session j) k then false
  else existsb (fun j' => Nat.eqb (job_session j') k) l.
Proof.
  revert n. induction l as [|y l IH]; intros [|n] Hd H; simpl in *;
    try discriminate.
  - inversion H; subst y. inversion Hd as [|? ? Hn _]; subst.
    destruct (Nat.eqb (job_session j) k) eqn:E; [|reflexivity].
    apply Nat.eqb_eq in E. subst k.
    destruct (existsb _ l) eqn:X; [|reflexivity].
    apply existsb_exists in X. destruct X as [j' [Hj' E']].
    apply Nat.eqb_eq in E'. exfalso. apply Hn. rewrite <- E'.
    apply in_map. assumption.
  - inversion Hd as [|? ? Hn Hd']; subst. rewrite (IH n Hd' H).
    destruct (Nat.eqb (job_session j) k) eqn:E; [|reflexivity].
    apply Nat.eqb_eq in E. subst k.
    destruct (Nat.eqb (job_session y) (job_session j)) eqn:E'; [|reflexivity].
    apply Nat.eqb_eq in E'. exfalso. apply Hn. rewrite E'.
    apply in_map. eapply nth_error_In; eauto.
Qed.

End ControllerFacts.

Section InvariantProofs.

Context {A : F32Arith} {W : WhisperApi} {T : Type} {ST : Sample T}.

Lemma Invariant_init : Invariant init.
Proof.
  split; simpl; try reflexivity; try discriminate; try tauto.
  - constructor.
Qed.

Lemma expected_phase_unfold (s : System) (k : nat) :
  expected_phase s k =
  if session_count s <=? k then NotStarted
  else if is_recording s && Nat.eqb k (current_session s) then Capturing
  else if has_job k s then Stopped
  else Closed.
Proof. reflexivity. Qed.

Lemma Invariant_start (s : System) (device : option positive) :
  Invariant s -> is_recording s = false ->
  Invariant (step s (Hook (KeyPress ControlRight) device)).
Proof.
  intros I R. simpl. rewrite R. simpl negb. cbv iota.
  set (s' := start_audio_recording _ _).
  assert (E : emitted s' = emitted s ++ [(session_count s, recording_started)])
    by (destruct device; reflexivity).
  assert (Ew : workers s' = workers s) by (destruct device; reflexivity).
  assert (Er : is_recording s' = true) by (destruct device; reflexivity).
  assert (Ec : session_count s' = S (session_count s)) by (destruct device; reflexivity).
  split.
  - rewrite (capture_flag_snoc s s' _ _ E), (inv_flag I), R, Er. reflexivity.
  - rewrite !(count_where_snoc _ s s' _ _ E). unfold in_flight. rewrite Ew.
    simpl. rewrite !Nat.add_0_r. apply (inv_jobs I).
  - rewrite Er. discriminate.
  - rewrite Ec. lia.
  - intros k. rewrite (session_trace_snoc s s' _ k _ E), expected_phase_unfold.
    unfold current_session, has_job. rewrite Ec, Er, Ew. simpl pred.
    pose proof (inv_phase I k) as P. rewrite expected_phase_unfold in P.
    unfold has_job in P. rewrite R in P. simpl in P.
    destruct (Nat.eqb_spec (session_count s) k) as [E1|N].
    + subst k. rewrite Nat.leb_refl in P. rewrite phase_of_snoc, P.
      replace (S (session_count s) <=? session_count s) with false
        by (symmetry; apply Nat.leb_gt; lia).
      rewrite Nat.eqb_refl. reflexivity.
    + rewrite P. destruct (Nat.leb_spec (session_count s) k).
      * replace (S (session_count s) <=? k) with true
          by (symmetry; apply Nat.leb_le; lia). reflexivity.
      * replace (S (session_count s) <=? k) with false
          by (symmetry; apply Nat.leb_gt; lia).
        replace (Nat.eqb k (session_count s)) with false
          by (symmetry; apply Nat.eqb_neq; lia). reflexivity.
  - rewrite Ew. apply (inv_nodup I).
  - intros j. rewrite Ew, Ec. intros Hj.
    destruct (inv_bound I j Hj) as [B _]. unfold current_session. rewrite Ec.
    simpl. split; [lia | intros _; lia].
Qed.


Lemma Invariant_ext (s s' : System) :
  is_recording s' = is_recording s -> audio_ctx s' = audio_ctx s ->
  workers s' = workers s -> session_count s' = session_count s ->
  emitted s' = emitted s -> Invariant s -> Invariant s'.
Proof.
  destruct s, s'. simpl. intros -> -> -> -> -> I.
  destruct I as [I1 I2 I3 I4 I5 I6 I7]. split; assumption.
Qed.

Lemma Invariant_stop (s : System) (device : option positive) :
  Invariant s -> is_recording s = true ->
  Invariant (step s (Hook (KeyPress ControlRight) device)).
Proof.
  intros I R. simpl. rewrite R. simpl negb. cbv iota.
  set (s' := stop_audio_and_transcribe _).
  set (j := {| job_session := current_session s; job_buffer := buffer (audio_ctx s) |}).
  assert (E : emitted s' = emitted s ++ [(current_session s, recording_stopped)])
    by reflexivity.
  assert (Ew : workers s' = workers s ++ [j]) by reflexivity.
  assert (Er : is_recording s' = false) by reflexivity.
  assert (Ec : session_count s' = session_count s) by reflexivity.
  pose proof (inv_started I R) as Pos.
  split.
  - rewrite (capture_flag_snoc s s' _ _ E), (inv_flag I), R, Er. reflexivity.
  - rewrite !(count_where_snoc _ s s' _ _ E). unfold in_flight.
    rewrite Ew, length_app. simpl. pose proof (inv_jobs I) as J.
    unfold in_flight in J. lia.
  - intros _. split; reflexivity.
  - rewrite Er. discriminate.
  - intros k. rewrite (session_trace_snoc s s' _ k _ E), expected_phase_unfold.
    rewrite (has_job_app k s' j (workers s) Ew), Ec, Er. simpl andb. cbv iota.
    pose proof (inv_phase I k) as P. rewrite expected_phase_unfold in P.
    unfold has_job in P. rewrite R in P. simpl andb in P. simpl job_session.
    destruct (Nat.eqb_spec (current_session s) k) as [E1|N].
    + subst k. rewrite Nat.eqb_refl in P.
      replace (session_count s <=? current_session s) with false in *
        by (symmetry; apply Nat.leb_gt; unfold current_session; lia).
      rewrite phase_of_snoc, P, orb_true_r. reflexivity.
    + rewrite P, orb_false_r.
      replace (Nat.eqb k (current_session s)) with false
        by (symmetry; apply Nat.eqb_neq; lia). reflexivity.
  - rewrite Ew, map_app. simpl. apply NoDup_app.
    + apply (inv_nodup I).
    + constructor; [intros [] | constructor].
    + intros a Hin [<-|[]]. apply in_map_iff in Hin.
      destruct Hin as [j' [Ej Hj]].
      destruct (inv_bound I j' Hj) as [_ B]. apply (B R). assumption.
  - intros j'. rewrite Ew, Ec, Er. intros Hj. apply in_app_or in Hj.
    split; [|discriminate]. destruct Hj as [Hj|[<-|[]]].
    + apply (inv_bound I j' Hj).
    + simpl. unfold current_session. lia.
Qed.

Lemma Invariant_data (s : System) (data : list T) :
  Invariant s -> Invariant (step s (InputData data)).
Proof.
  intros I. simpl. destruct (stream (audio_ctx s)) as [st|] eqn:S; [|exact I].
  assert (R : is_recording s = true).
  { destruct (is_recording s) eqn:R; [reflexivity|].
    destruct (inv_idle I R) as [_ N]. congruence. }
  set (s' := input_callback _ _ _).
  assert (E : exists x, emitted s' = emitted s ++ [(current_session s, audio_level x)])
    by (eexists; reflexivity).
  destruct E as [x E].
  assert (Ew : workers s' = workers s) by reflexivity.
  assert (Er : is_recording s' = is_recording s) by reflexivity.
  assert (Ec : session_count s' = session_count s) by reflexivity.
  split.
  - rewrite (capture_flag_snoc s s' _ _ E), (inv_flag I), Er.
    destruct (is_recording s); reflexivity.
  - rewrite !(count_where_snoc _ s s' _ _ E). unfold in_flight. rewrite Ew.
    simpl. rewrite !Nat.add_0_r. apply (inv_jobs I).
  - rewrite Er, R. discriminate.
  - rewrite Ec. intros _. apply (inv_started I R).
  - intros k. rewrite (session_trace_snoc s s' _ k _ E).
    replace (expected_phase s' k) with (expected_phase s k) by reflexivity.
    pose proof (inv_phase I k) as P.
    destruct (Nat.eqb_spec (current_session s) k) as [E1|N]; [|exact P].
    subst k. rewrite phase_of_snoc, P, expected_phase_unfold, R, Nat.eqb_refl.
    replace (session_count s <=? current_session s) with false
      by (symmetry; apply Nat.leb_gt; pose proof (inv_started I R);
          unfold current_session; lia).
    reflexivity.
  - rewrite Ew. apply (inv_nodup I).
  - intros j. rewrite Ew, Ec, Er. apply (inv_bound I).
Qed.

(** What the end of a worker changes: one closing notification for its
    recording, the desktop, the Whisper state and the inference log. *)
Lemma finish_worker_effect (j : Job) (env : ClipboardEnv) (s : System) :
  exists n,
    emitted (finish_worker j env s) = emitted s ++ [(job_session j, n)] /\
    (n = transcription_error \/ exists t, n = transcription_done t) /\
    workers (finish_worker j env s) = workers s /\
    is_recording (finish_worker j env s) = is_recording s /\
    session_count (finish_worker j env s) = session_count s /\
    audio_ctx (finish_worker j env s) = audio_ctx s.
Proof.
  unfold finish_worker.
  destruct (run_text (run_whisper_on_buffer (job_buffer j) (whisper_state s))) as [t|].
  - exists (transcription_done t). simpl. repeat split; eauto.
  - exists transcription_error. simpl. repeat split; eauto.
Qed.

Lemma Invariant_worker (s : System) (n : nat) (env : ClipboardEnv) :
  Invariant s -> Invariant (step s (WorkerDone n env)).
Proof.
  intros I. simpl. destruct (nth_error (workers s) n) as [j|] eqn:Hn; [|exact I].
  set (s1 := Build_System _ _ _ _ _ _ _ _).
  destruct (finish_worker_effect j env s1) as [x [E [Hx [Ew [Er [Ec Ea]]]]]].
  set (s' := finish_worker j env s1) in *.
  simpl in E, Ew, Er, Ec, Ea.
  assert (Hin : In j (workers s)) by (eapply nth_error_In; eauto).
  destruct (inv_bound I j Hin) as [B1 B2].
  assert (Tx : is_terminal x = true) by (destruct Hx as [->|[t ->]]; reflexivity).
  assert (Sx : is_stopped x = false) by (destruct Hx as [->|[t ->]]; reflexivity).
  assert (Fx : forall b, next_flag b x = Some b)
    by (intros b; destruct Hx as [->|[t ->]]; destruct b; reflexivity).
  assert (Px : next_phase Stopped x = Some Closed)
    by (destruct Hx as [->|[t ->]]; reflexivity).
  split.
  - rewrite (capture_flag_snoc s s' _ _ E), (inv_flag I), Er. apply Fx.
  - rewrite !(count_where_snoc _ s s' _ _ E), Tx, Sx. unfold in_flight.
    rewrite Ew. pose proof (remove_nth_length _ _ Hn) as L.
    pose proof (inv_jobs I) as J. unfold in_flight in J. lia.
  - rewrite Er, Ea. apply (inv_idle I).
  - rewrite Er, Ec. apply (inv_started I).
  - intros k. rewrite (session_trace_snoc s s' _ k _ E), expected_phase_unfold.
    unfold has_job, current_session. rewrite Ec, Er, Ew.
    rewrite (remove_nth_existsb _ _ k (inv_nodup I) Hn).
    pose proof (inv_phase I k) as P. rewrite expected_phase_unfold in P.
    unfold has_job, current_session in P.
    destruct (Nat.eqb_spec (job_session j) k) as [E1|N]; [|exact P].
    subst k. rewrite phase_of_snoc, P.
    replace (session_count s <=? job_session j) with false
      by (symmetry; apply Nat.leb_gt; lia).
    assert (X : is_recording s && Nat.eqb (job_session j) (pred (session_count s)) = false).
    { destruct (is_recording s); [|reflexivity]. simpl.
      apply Nat.eqb_neq. apply B2. reflexivity. }
    rewrite X.
    assert (Y : existsb (fun j' => Nat.eqb (job_session j') (job_session j)) (workers s) = true).
    { apply existsb_exists. exists j. split; [assumption | apply Nat.eqb_refl]. }
    rewrite Y. exact Px.
  - rewrite Ew. apply remove_nth_NoDup. apply (inv_nodup I).
  - intros j'. unfold current_session. rewrite Ew, Ec, Er. intros Hj.
    apply (inv_bound I). eapply remove_nth_In; eauto.
Qed.

Lemma Invariant_step (s : System) (i : Input T) :
  Invariant s -> Invariant (step s i).
Proof.
  intros I. destruct i as [e device|data|n env|path].
  - destruct e as [k| |]; try exact I.
    destruct k; try exact I.
    destruct (is_recording s) eqn:R.
    + apply Invariant_stop; assumption.
    + apply Invariant_start; assumption.
  - apply Invariant_data; assumption.
  - apply Invariant_worker; assumption.
  - revert I. apply Invariant_ext; reflexivity.
Qed.

Lemma Invariant_run (s : System) (inputs : list (Input T)) :
  Invariant s -> Invariant (run s inputs).
Proof.
  revert s. induction inputs as [|i l IH]; intros s I; [exact I|].
  simpl. apply IH. apply Invariant_step. exact I.
Qed.

Lemma step_start (s : System) (device : option positive) :
  is_recording s = false ->
  step (T := T) s (Hook (KeyPress ControlRight) device)
  = start_audio_recording device
      (emit_all (session_count s) recording_started
         {| is_recording := true; audio_ctx := audio_ctx s;
            whisper_state := whisper_state s; workers := workers s;
            session_count := S (session_count s);
            emitted := emitted s; desktop := desktop s;
            inference_calls := inference_calls s |}).
Proof. intros R. unfold step, callback. simpl. rewrite R. reflexivity. Qed.

Lemma step_stop (s : System) (device : option positive) :
  is_recording s = true ->
  step (T := T) s (Hook (KeyPress ControlRight) device)
  = stop_audio_and_transcribe
      (emit_all (current_session s) recording_stopped (store_is_recording false s)).
Proof. intros R. unfold step, callback. simpl. rewrite R. reflexivity. Qed.

Lemma Invariant_reachable (inputs : list (Input T)) : Invariant (run init inputs).
Proof. apply Invariant_run. apply Invariant_init. Qed.

End InvariantProofs.

Section SingleFlight.

Context {A : F32Arith} {W : WhisperApi} {T : Type} {ST : Sample T}.

(** C1, as the backend has it: whatever the toggles, audio callbacks,
    worker completions and model commands, [recording_started] and
    [recording_stopped] alternate, beginning with [recording_started], and
    the recording flag is raised exactly between them, so that at most one
    recording is open at any time; every [recording_stopped] leaves one
    more job in flight and every closing notification one fewer, with no
    bound on the jobs in flight. *)
Theorem C1_one_recording_at_a_time (inputs : list (Input T)) :
  capture_flag (run init inputs) = Some (is_recording (run init inputs)) /\
  in_flight (run init inputs) + count_where is_terminal (run init inputs)
  = count_where is_stopped (run init inputs).
Proof.
  pose proof (Invariant_reachable inputs) as I.
  split; [apply (inv_flag I) | apply (inv_jobs I)].
Qed.






End SingleFlight.

(** The claim of C1 fails after four presses of the hotkey with no worker
    finished in between: two jobs are in flight; after three presses a
    recording is open while the first job is still in flight. *)
Lemma C1_two_jobs_in_flight :
  ~ single_flight (run init [Stub.toggle; Stub.toggle; Stub.toggle; Stub.toggle]) /\
  ~ single_flight (run init [Stub.toggle; Stub.toggle; Stub.toggle]).
Proof.
  split; intros [H1 H2]; vm_compute in H1, H2.
  - lia.
  - specialize (H2 eq_refl). discriminate.
Qed.




Section Snapshot.

Context {A : F32Arith} {W : WhisperApi} {T : Type} {ST : Sample T}.

Lemma step_not_toggle_hook (s : System) (e : EventType) (device : option positive) :
  is_toggle (Hook (T := T) e device) = false -> step s (Hook e device) = s.
Proof.
  unfold is_toggle, step, callback. destruct e as [k| |]; try reflexivity.
  intros ->. reflexivity.
Qed.




(** C6: when the model file does not load, [set_active_model] returns the
    error and the Whisper state is the one before the call, so that a
    model loaded earlier still answers as before; the backend as a whole
    is unchanged by the command. *)
Theorem C6_failed_load_keeps_state (path : string) (e : string)
  (ws : WhisperState) (s : System) (samples : list f32) :
  WhisperContext_new path = Err e ->
  set_active_model path ws = (Err e, ws) /\
  run_whisper_on_buffer samples (snd (set_active_model path ws))
  = run_whisper_on_buffer samples ws /\
  step (T := T) s (InvokeSetActiveModel path) = s.
Proof.
  intros F. unfold step, set_active_model. rewrite F. simpl.
  destruct s; repeat split; reflexivity.
Qed.

(** C7, as the backend has it: when the transcription is the empty
    string the worker still emits [transcription_done] with the empty
    payload, and dispatches the empty text like any other: it hands it to
    the clipboard and synthesizes the paste. *)
Theorem C7_empty_text_is_dispatched (s : System) (j : Job) (env : ClipboardEnv) :
  run_text (run_whisper_on_buffer (job_buffer j) (whisper_state s)) = Some [] ->
  emitted (finish_worker j env s) = emitted s ++ [(job_session j, transcription_done [])] /\
  desktop (finish_worker j env s) = copy_to_clipboard_and_paste [] env (desktop s) /\
  simulated (desktop (finish_worker j env s)) = simulated (desktop s) ++ paste_keys /\
  (clipboard_new_ok env = true ->
   set_text_calls (desktop (finish_worker j env s)) = set_text_calls (desktop s) ++ [[]]).
Proof.
  intros E. unfold finish_worker. rewrite E. simpl.
  unfold copy_to_clipboard. repeat split.
  - destruct (clipboard_new_ok env); reflexivity.
  - intros ->. reflexivity.
Qed.


End Snapshot.

(** ** Runs of the backend on the stand-in model *)




Lemma C6_failed_load_keeps_state_witness :
  WhisperContext_new (WhisperApi := Stub.api) EmptyString = Err "failed to open model"%string /\
  ctx (whisper_state Stub.loaded) = Some [] /\
  set_active_model EmptyString (whisper_state Stub.loaded)
  = (Err "failed to open model"%string, whisper_state Stub.loaded) /\
  run_whisper_on_buffer (W := Stub.api) [Stub.half] (snd (set_active_model EmptyString (whisper_state Stub.loaded)))
  = run_whisper_on_buffer (W := Stub.api) [Stub.half] (whisper_state Stub.loaded) /\
  step (T := Binary32.t) Stub.loaded (InvokeSetActiveModel EmptyString) = Stub.loaded.
Proof.
  split; [reflexivity|]. split; [reflexivity|].
  apply (C6_failed_load_keeps_state (T := Binary32.t) EmptyString
           (whisper_state Stub.loaded) Stub.loaded [Stub.half]).
  reflexivity.
Defined.

(** The claim of C7 fails on a recording of no audio with a model loaded:
    the transcription is empty, and the empty text is written to the
    clipboard and pasted. *)
Lemma C7_empty_text_is_pasted :
  let s := run init [InvokeSetActiveModel "base.en.bin"; Stub.toggle; Stub.toggle;
                     WorkerDone 0 Stub.clip_ok] in
  session_trace 0 s = [recording_started; recording_stopped; transcription_done []] /\
  desktop s = {| clipboard := Some []; set_text_calls := [[]]; simulated := paste_keys |}.
Proof. cbv zeta. split; reflexivity. Qed.

Lemma C7_empty_text_is_dispatched_witness :
  run_text (run_whisper_on_buffer (job_buffer (Stub.job 0 [])) (whisper_state Stub.loaded))
  = Some [] /\
  emitted (finish_worker (Stub.job 0 []) Stub.clip_ok Stub.loaded)
  = emitted Stub.loaded ++ [(job_session (Stub.job 0 []), transcription_done [])] /\
  desktop (finish_worker (Stub.job 0 []) Stub.clip_ok Stub.loaded)
  = copy_to_clipboard_and_paste [] Stub.clip_ok (desktop Stub.loaded) /\
  simulated (desktop (finish_worker (Stub.job 0 []) Stub.clip_ok Stub.loaded))
  = simulated (desktop Stub.loaded) ++ paste_keys /\
  (clipboard_new_ok Stub.clip_ok = true ->
   set_text_calls (desktop (finish_worker (Stub.job 0 []) Stub.clip_ok Stub.loaded))
   = set_text_calls (desktop Stub.loaded) ++ [[]]).
Proof.
  split; [reflexivity|].
  apply (C7_empty_text_is_dispatched Stub.loaded (Stub.job 0 []) Stub.clip_ok).
  reflexivity.
Defined.



(** ** The resampler *)

Lemma round_div_same_rate (len : N) (r : positive) :
  Resampler.round_div (len * Npos r) (Npos r) = len.
Proof.
  unfold Resampler.round_div. symmetry.
  apply (N.div_unique _ _ _ (Npos r)); lia.
Qed.

Lemma round_div_third (len : N) :
  Resampler.round_div (len * 16000) 48000 = Resampler.round_div len 3.
Proof.
  unfold Resampler.round_div.
  replace (2 * (len * 16000) + 48000)%N with (16000 * (2 * len + 3))%N by lia.
  change (2 * 48000)%N with (16000 * (2 * 3))%N.
  apply N.Div0.div_mul_cancel_l; lia.
Qed.

(** C4: the output of [resample] has [round (len * targetRate /
    sourceRate)] samples; with equal rates it is the input, unchanged;
    the empty input gives the empty output; from 48000 Hz to 16000 Hz the
    length is [round (len / 3)]; and equal inputs give equal outputs. *)
Theorem C4_resample (A : F32Arith)
  (interpolate : list f32 -> positive -> positive -> nat -> f32)
  (x : list f32) (sourceRate targetRate : positive) :
  length (Resampler.resample interpolate x sourceRate targetRate)
  = N.to_nat (Resampler.round_div (N.of_nat (length x) * Npos targetRate) (Npos sourceRate)) /\
  Resampler.resample interpolate x sourceRate sourceRate = x /\
  Resampler.resample interpolate [] sourceRate targetRate = [] /\
  length (Resampler.resample interpolate x 48000 16000)
  = N.to_nat (Resampler.round_div (N.of_nat (length x)) 3) /\
  (forall y, y = x ->
   Resampler.resample interpolate y sourceRate targetRate
   = Resampler.resample interpolate x sourceRate targetRate).
Proof.
  assert (L : forall s t,
             length (Resampler.resample interpolate x s t)
             = N.to_nat (Resampler.round_div (N.of_nat (length x) * Npos t) (Npos s))).
  { intros s t. unfold Resampler.resample.
    destruct (Pos.eqb_spec s t) as [->|N].
    - rewrite round_div_same_rate. symmetry. apply Nat2N.id.
    - rewrite length_map, length_seq. reflexivity. }
  split; [apply L|]. split.
  - unfold Resampler.resample. rewrite Pos.eqb_refl. reflexivity.
  - split.
    + unfold Resampler.resample, Resampler.output_length.
      destruct (Pos.eqb sourceRate targetRate); [reflexivity|].
      replace (Resampler.round_div _ _) with 0%N; [reflexivity|].
      unfold Resampler.round_div. symmetry. apply N.div_small. simpl. lia.
    + split.
      * rewrite L. rewrite round_div_third. reflexivity.
      * intros y ->. reflexivity.
Qed.

Lemma C4_resample_witness :
  let x := [Some 1%Q; Some 2%Q; Some 3%Q; Some 4%Q; Some 5%Q; Some 6%Q] in
  length (Resampler.resample (A := Binary32.arith) Resampler.hold x 44100 16000)
  = N.to_nat (Resampler.round_div (N.of_nat (length x) * 16000) 44100) /\
  Resampler.resample (A := Binary32.arith) Resampler.hold x 44100 44100 = x /\
  Resampler.resample (A := Binary32.arith) Resampler.hold [] 44100 16000 = [] /\
  length (Resampler.resample (A := Binary32.arith) Resampler.hold x 48000 16000)
  = N.to_nat (Resampler.round_div (N.of_nat (length x)) 3) /\
  (forall y, y = x ->
   Resampler.resample (A := Binary32.arith) Resampler.hold y 44100 16000
   = Resampler.resample (A := Binary32.arith) Resampler.hold x 44100 16000).
Proof.
  exact (C4_resample Binary32.arith Resampler.hold
           [Some 1%Q; Some 2%Q; Some 3%Q; Some 4%Q; Some 5%Q; Some 6%Q]
           44100 16000).
Defined.

Example resample_48k_to_16k :
  Resampler.resample (A := Binary32.arith) Resampler.hold
    [Some 1%Q; Some 2%Q; Some 3%Q; Some 4%Q; Some 5%Q; Some 6%Q] 48000 16000
  = [Some 1%Q; Some 4%Q].
Proof. vm_compute. reflexivity. Qed.

(** ** Rounding to single precision *)

Section Rounding.

Local Unset Implicit Arguments.

Local Open Scope Q_scope.
Import Binary32.

Lemma pow2_pos (z : Z) : 0 < 2 ^ z.
Proof. apply Qpower_0_lt. reflexivity. Qed.

Lemma pow2_add (a b : Z) : 2 ^ (a + b) == 2 ^ a * 2 ^ b.
Proof. apply Qpower_plus. discriminate. Qed.

Lemma pow2_le (a b : Z) : (a <= b)%Z -> 2 ^ a <= 2 ^ b.
Proof. intros H. apply Qpower_le_compat_l; [assumption | discriminate]. Qed.

Lemma pow2_lt (a b : Z) : (a < b)%Z -> 2 ^ a < 2 ^ b.
Proof. intros H. apply Qpower_lt_compat_l; [assumption | reflexivity]. Qed.

Lemma pow2_inject (n : Z) : (0 <= n)%Z -> 2 ^ n == inject_Z (2 ^ n).
Proof. intros H. symmetry. apply (Zpower_Qpower 2 n H). Qed.

Lemma pow2_cancel (q : Z) : 2 ^ (- q) * 2 ^ q == 1.
Proof. rewrite <- pow2_add. replace (- q + q)%Z with 0%Z by lia. reflexivity. Qed.

(** The exponent of a positive rational brackets it. *)
Lemma mag_spec (x : Q) : 0 < x -> 2 ^ mag x <= x /\ x < 2 ^ (mag x + 1).
Proof.
  intros Hx. destruct x as [a b]. unfold mag. simpl Qnum. simpl Qden.
  assert (Ha : (0 < a)%Z).
  { unfold Qlt in Hx. simpl in Hx. lia. }
  set (la := Z.log2 a). set (lb := Z.log2 (Zpos b)). set (d := (la - lb)%Z).
  destruct (Z.log2_spec a Ha) as [A1 A2]. fold la in A1, A2.
  destruct (Z.log2_spec (Zpos b) (Pos2Z.is_pos b)) as [B1 B2]. fold lb in B1, B2.
  assert (La : (0 <= la)%Z) by apply Z.log2_nonneg.
  assert (Lb : (0 <= lb)%Z) by apply Z.log2_nonneg.
  rewrite Zle_Qle, <- pow2_inject in A1 by assumption.
  rewrite Zlt_Qlt, <- pow2_inject in A2 by lia.
  rewrite Zle_Qle, <- pow2_inject in B1 by assumption.
  rewrite Zlt_Qlt, <- pow2_inject in B2 by lia.
  assert (Bp : 0 < inject_Z (Zpos b)) by reflexivity.
  assert (X : (a # b) * inject_Z (Zpos b) == inject_Z a).
  { rewrite (Qmake_Qdiv a b). field. intros E. rewrite E in Bp.
    apply (Qlt_irrefl _ Bp). }
  assert (Hlo : 2 ^ (d - 1) <= a # b).
  { apply Qmult_le_r with (z := inject_Z (Zpos b)); [assumption|]. rewrite X.
    apply Qle_trans with (2 ^ (d - 1) * 2 ^ (lb + 1)).
    - apply Qmult_le_l; [apply pow2_pos | apply Qlt_le_weak; assumption].
    - rewrite <- pow2_add. replace (d - 1 + (lb + 1))%Z with la by (unfold d; lia).
      assumption. }
  assert (Hhi : a # b < 2 ^ (d + 1)).
  { apply Qmult_lt_r with (z := inject_Z (Zpos b)); [assumption|]. rewrite X.
    apply Qlt_le_trans with (2 ^ (la + 1)); [assumption|].
    replace (la + 1)%Z with (d + 1 + lb)%Z by (unfold d; lia). rewrite pow2_add.
    apply Qmult_le_l; [apply pow2_pos | assumption]. }
  destruct (Qle_bool (2 ^ d) (a # b)) eqn:E.
  - apply Qle_bool_iff in E. split; assumption.
  - assert (L : a # b < 2 ^ d).
    { apply Qnot_le_lt. intros C. apply Qle_bool_iff in C. congruence. }
    split; [assumption|]. replace (d - 1 + 1)%Z with d by lia. assumption.
Qed.


Lemma mag_unique (x : Q) (e : Z) : 2 ^ e <= x -> x < 2 ^ (e + 1) -> mag x = e.
Proof.
  intros L U.
  assert (Hx : 0 < x) by (apply Qlt_le_trans with (2 ^ e); [apply pow2_pos | assumption]).
  destruct (mag_spec x Hx) as [L' U'].
  assert (A : (mag x < e + 1)%Z).
  { apply Qpower_lt_compat_l_inv with (q := 2); [|reflexivity].
    apply Qle_lt_trans with x; assumption. }
  assert (B : (e < mag x + 1)%Z).
  { apply Qpower_lt_compat_l_inv with (q := 2); [|reflexivity].
    apply Qle_lt_trans with x; assumption. }
  lia.
Qed.

Lemma mag_le (x : Q) (e : Z) : 0 < x -> x <= 2 ^ e -> (mag x <= e)%Z.
Proof.
  intros Hx U. destruct (mag_spec x Hx) as [L _].
  apply Qpower_le_compat_l_inv with (q := 2); [|reflexivity].
  apply Qle_trans with x; assumption.
Qed.

Lemma mag_lt (x : Q) (e : Z) : 0 < x -> x < 2 ^ e -> (mag x < e)%Z.
Proof.
  intros Hx U. destruct (mag_spec x Hx) as [L _].
  apply Qpower_lt_compat_l_inv with (q := 2); [|reflexivity].
  apply Qle_lt_trans with x; assumption.
Qed.

Lemma mag_ge (x : Q) (e : Z) : 2 ^ e <= x -> (e <= mag x)%Z.
Proof.
  intros L.
  assert (Hx : 0 < x) by (apply Qlt_le_trans with (2 ^ e); [apply pow2_pos | assumption]).
  destruct (mag_spec x Hx) as [_ U].
  assert (A : (e < mag x + 1)%Z).
  { apply Qpower_lt_compat_l_inv with (q := 2); [|reflexivity].
    apply Qle_lt_trans with x; assumption. }
  lia.
Qed.

Lemma rne_cases (y : Q) : rne y = Qfloor y \/ rne y = (Qfloor y + 1)%Z.
Proof.
  unfold rne. destruct (Qcompare _ _); auto. destruct (Z.even _); auto.
Qed.

Lemma rne_le_Z (y : Q) (K : Z) : y <= inject_Z K -> (rne y <= K)%Z.
Proof.
  intros H. pose proof (Qfloor_le y) as F.
  assert (FK : (Qfloor y <= K)%Z).
  { rewrite Zle_Qle. apply Qle_trans with y; assumption. }
  unfold rne. destruct (Qcompare_spec (y - inject_Z (Qfloor y)) (1 # 2)) as [E|E|E].
  - destruct (Z.even (Qfloor y)); [assumption|].
    assert (S : inject_Z (Qfloor y) < inject_Z K) by lra.
    rewrite <- Zlt_Qlt in S. lia.
  - assumption.
  - assert (S : inject_Z (Qfloor y) < inject_Z K) by lra.
    rewrite <- Zlt_Qlt in S. lia.
Qed.

Lemma rne_ge_Z (y : Q) (K : Z) : inject_Z K <= y -> (K <= rne y)%Z.
Proof.
  intros H. pose proof (Qfloor_resp_le _ _ H) as F. rewrite Qfloor_Z in F.
  destruct (rne_cases y) as [-> | ->]; lia.
Qed.

Lemma rne_tie_down (y : Q) (f : Z) :
  inject_Z f <= y -> y <= inject_Z f + (1 # 2) -> Z.even f = true -> rne y = f.
Proof.
  intros L U E.
  assert (F : Qfloor y = f).
  { pose proof (Qfloor_resp_le _ _ L) as A. rewrite Qfloor_Z in A.
    pose proof (Qfloor_le y) as B.
    assert (C : inject_Z (Qfloor y) < inject_Z (f + 1)).
    { rewrite inject_Z_plus. change (inject_Z 1) with 1. lra. }
    rewrite <- Zlt_Qlt in C. lia. }
  unfold rne. rewrite F, E.
  destruct (Qcompare_spec (y - inject_Z f) (1 # 2)) as [H|H|H]; try reflexivity.
  lra.
Qed.

Lemma round_pos_le (x : Q) (K : Z) :
  x * 2 ^ (- ulp_exp x) <= inject_Z K -> round_pos x <= inject_Z K * 2 ^ ulp_exp x.
Proof.
  intros H. unfold round_pos. fold (ulp_exp x).
  apply Qmult_le_compat_r; [|apply Qlt_le_weak, pow2_pos].
  rewrite <- Zle_Qle. apply rne_le_Z. assumption.
Qed.

Lemma round_pos_ge (x : Q) (K : Z) :
  inject_Z K <= x * 2 ^ (- ulp_exp x) -> inject_Z K * 2 ^ ulp_exp x <= round_pos x.
Proof.
  intros H. unfold round_pos. fold (ulp_exp x).
  apply Qmult_le_compat_r; [|apply Qlt_le_weak, pow2_pos].
  rewrite <- Zle_Qle. apply rne_ge_Z. assumption.
Qed.

Lemma round_pos_nonneg (x : Q) : 0 <= x -> 0 <= round_pos x.
Proof.
  intros H. apply Qle_trans with (inject_Z 0 * 2 ^ ulp_exp x).
  - change (inject_Z 0) with 0. lra.
  - apply round_pos_ge. change (inject_Z 0) with 0.
    apply Qmult_le_0_compat; [assumption | apply Qlt_le_weak, pow2_pos].
Qed.

(** A power of two in range stops the rounding from above. *)
Lemma round_pos_le_pow2 (x : Q) (e : Z) :
  (emin <= e)%Z -> 0 < x -> x <= 2 ^ e -> round_pos x <= 2 ^ e.
Proof.
  intros He Hx U. pose proof (mag_le x e Hx U) as M.
  assert (Q : (ulp_exp x <= e)%Z) by (unfold ulp_exp; lia).
  assert (E : 2 ^ e == inject_Z (2 ^ (e - ulp_exp x)) * 2 ^ ulp_exp x).
  { rewrite <- pow2_inject by lia. rewrite <- pow2_add.
    replace (e - ulp_exp x + ulp_exp x)%Z with e by lia. reflexivity. }
  rewrite E. apply round_pos_le. rewrite <- pow2_inject by lia.
  replace (e - ulp_exp x)%Z with (e + - ulp_exp x)%Z by lia. rewrite pow2_add.
  apply Qmult_le_compat_r; [assumption | apply Qlt_le_weak, pow2_pos].
Qed.

(** So does an integer below [2 ^ 24]. *)
Lemma round_pos_le_int (x : Q) (k : Z) :
  0 < x -> x <= inject_Z k -> (k < 2 ^ 24)%Z -> round_pos x <= inject_Z k.
Proof.
  intros Hx U B.
  assert (M : (mag x < 24)%Z).
  { apply mag_lt; [assumption|]. apply Qle_lt_trans with (inject_Z k); [assumption|].
    rewrite (pow2_inject 24) by lia. rewrite <- Zlt_Qlt. assumption. }
  assert (Q : (ulp_exp x <= 0)%Z) by (unfold ulp_exp, emin; lia).
  assert (E : inject_Z k == inject_Z (k * 2 ^ (- ulp_exp x)) * 2 ^ ulp_exp x).
  { rewrite inject_Z_mult, <- pow2_inject by lia. rewrite <- Qmult_assoc, pow2_cancel.
    ring. }
  rewrite E. apply round_pos_le. rewrite inject_Z_mult, <- pow2_inject by lia.
  apply Qmult_le_compat_r; [assumption | apply Qlt_le_weak, pow2_pos].
Qed.

Lemma round_pos_ge_int (k : Z) :
  (0 < k < 2 ^ 24)%Z -> inject_Z k <= round_pos (inject_Z k).
Proof.
  intros [P B]. set (x := inject_Z k).
  assert (Hx : 0 < x) by (unfold x; change 0 with (inject_Z 0); rewrite <- Zlt_Qlt; lia).
  assert (M : (mag x < 24)%Z).
  { apply mag_lt; [assumption|]. rewrite (pow2_inject 24) by lia.
    unfold x. rewrite <- Zlt_Qlt. assumption. }
  assert (Q : (ulp_exp x <= 0)%Z) by (unfold ulp_exp, emin; lia).
  assert (E : x == inject_Z (k * 2 ^ (- ulp_exp x)) * 2 ^ ulp_exp x).
  { unfold x at 1. rewrite inject_Z_mult, <- pow2_inject by lia.
    rewrite <- Qmult_assoc, pow2_cancel. ring. }
  rewrite E at 1. apply round_pos_ge. rewrite inject_Z_mult, <- pow2_inject by lia.
  unfold x at 1. apply Qle_refl.
Qed.

(** From [2 ^ 24] on, the rounded value stays at or above [2 ^ 24]. *)
Lemma round_pos_ge_2p24 (x : Q) : 2 ^ 24 <= x -> 2 ^ 24 <= round_pos x.
Proof.
  intros L. pose proof (mag_ge x 24 L) as M.
  assert (Hx : 0 < x) by (apply Qlt_le_trans with (2 ^ 24); [apply pow2_pos | assumption]).
  destruct (mag_spec x Hx) as [L' _].
  assert (Q : ulp_exp x = (mag x - 23)%Z) by (unfold ulp_exp, emin; lia).
  apply Qle_trans with (2 ^ mag x); [apply pow2_le; assumption|].
  assert (E : 2 ^ mag x == inject_Z (2 ^ 23) * 2 ^ ulp_exp x).
  { rewrite <- pow2_inject by lia. rewrite <- pow2_add, Q.
    replace (23 + (mag x - 23))%Z with (mag x) by lia. reflexivity. }
  rewrite E. apply round_pos_ge. rewrite <- pow2_inject by lia.
  apply Qmult_le_r with (z := 2 ^ ulp_exp x); [apply pow2_pos|].
  rewrite <- Qmult_assoc, pow2_cancel, <- pow2_add, Q.
  replace (23 + (mag x - 23))%Z with (mag x) by lia. lra.
Qed.

(** Just above [2 ^ 24] the tie goes down, to the even significand. *)
Lemma round_pos_tie_2p24 (x : Q) :
  2 ^ 24 <= x -> x <= 2 ^ 24 + 1 -> round_pos x == 2 ^ 24.
Proof.
  intros L U.
  assert (M : mag x = 24%Z).
  { apply mag_unique; [assumption|]. apply Qle_lt_trans with (2 ^ 24 + 1); [assumption|].
    reflexivity. }
  unfold round_pos, ulp_exp. rewrite M.
  change (inject_Z (rne (x * (1 # 2))) * 2 == 2 ^ 24).
  change (2 ^ 24) with (16777216 # 1) in *.
  rewrite (rne_tie_down (x * (1 # 2)) 8388608).
  - reflexivity.
  - change (inject_Z 8388608) with (8388608 # 1). lra.
  - change (inject_Z 8388608) with (8388608 # 1). lra.
  - reflexivity.
Qed.

End Rounding.

Section RoundingNonneg.

Local Unset Implicit Arguments.

Local Open Scope Q_scope.
Import Binary32.

Lemma round_zero (x : Q) : x == 0 -> round x = 0.
Proof. intros E. unfold round. apply Qeq_alt in E. rewrite E. reflexivity. Qed.

Lemma round_positive (x : Q) : 0 < x -> round x = round_pos x.
Proof.
  intros H. unfold round. apply Qgt_alt in H. rewrite H. reflexivity.
Qed.

Lemma round_nonneg (x : Q) : 0 <= x -> 0 <= round x.
Proof.
  intros H. destruct (Qlt_le_dec 0 x) as [P|N].
  - rewrite (round_positive x P). apply round_pos_nonneg. assumption.
  - rewrite round_zero by lra. lra.
Qed.

Lemma round_le_pow2 (x : Q) (e : Z) :
  (emin <= e)%Z -> 0 <= x -> x <= 2 ^ e -> round x <= 2 ^ e.
Proof.
  intros He H U. destruct (Qlt_le_dec 0 x) as [P|N].
  - rewrite (round_positive x P). apply round_pos_le_pow2; assumption.
  - rewrite round_zero by lra. apply Qlt_le_weak, pow2_pos.
Qed.

Lemma round_le_int (x : Q) (k : Z) :
  0 <= x -> x <= inject_Z k -> (k <= 2 ^ 24)%Z -> round x <= inject_Z k.
Proof.
  intros H U B. destruct (Qlt_le_dec 0 x) as [P|N].
  - destruct (Z.eq_dec k (2 ^ 24)) as [->|D].
    + rewrite <- (pow2_inject 24) in * by lia.
      apply round_le_pow2; [unfold emin; lia | assumption | assumption].
    + rewrite (round_positive x P). apply round_pos_le_int; [assumption|assumption|lia].
  - rewrite round_zero by lra. lra.
Qed.

Lemma round_saturates (x : Q) : 0 <= x -> x <= 2 ^ 24 + 1 -> round x <= 2 ^ 24.
Proof.
  intros H U. destruct (Qlt_le_dec (2 ^ 24) x) as [A|B].
  - assert (P : 0 < x) by (apply Qlt_trans with (2 ^ 24); [apply pow2_pos | assumption]).
    rewrite (round_positive x P). rewrite round_pos_tie_2p24; [apply Qle_refl | lra | assumption].
  - apply round_le_pow2; [unfold emin; lia | assumption | assumption].
Qed.

Lemma cap_nonneg (k : nat) : 0 <= cap k.
Proof. unfold cap. change 0 with (inject_Z 0). rewrite <- Zle_Qle. lia. Qed.

Lemma cap_le_2p24 (k : nat) : cap k <= 2 ^ 24.
Proof. unfold cap. rewrite (pow2_inject 24) by lia. rewrite <- Zle_Qle. lia. Qed.

Lemma round_sum_step (a q : Q) (k : nat) :
  0 <= a -> a <= cap k -> 0 <= q -> q <= 1 -> round (a + q) <= cap (S k).
Proof.
  intros A0 A1 Q0 Q1. unfold cap in *.
  destruct (Z.lt_ge_cases (Z.of_nat k) (2 ^ 24)) as [L|G].
  - rewrite Z.min_l in A1 by lia. rewrite Z.min_l by lia.
    apply round_le_int; [lra | | lia].
    rewrite Nat2Z.inj_succ. unfold Z.succ. rewrite inject_Z_plus.
    change (inject_Z 1) with 1. lra.
  - rewrite Z.min_r in A1 by lia. rewrite Z.min_r by lia.
    rewrite <- (pow2_inject 24) in * by lia.
    apply round_saturates; lra.
Qed.

Lemma round_count_ge (n : nat) : (0 < n)%nat -> cap n <= round (inject_Z (Z.of_nat n)).
Proof.
  intros P. unfold cap.
  assert (Hx : 0 < inject_Z (Z.of_nat n)).
  { change 0 with (inject_Z 0). rewrite <- Zlt_Qlt. lia. }
  rewrite (round_positive _ Hx).
  destruct (Z.lt_ge_cases (Z.of_nat n) (2 ^ 24)) as [L|G].
  - rewrite Z.min_l by lia. apply round_pos_ge_int. lia.
  - rewrite Z.min_r by lia. rewrite <- (pow2_inject 24) by lia.
    apply round_pos_ge_2p24. rewrite (pow2_inject 24) by lia.
    rewrite <- Zle_Qle. assumption.
Qed.

Lemma finite_some (r : Q) : 0 <= r -> r <= 2 ^ 64 -> finite r = Some (Qred r).
Proof.
  intros H U. unfold finite.
  destruct (Qle_bool (2 ^ 128) (Qabs r)) eqn:E; [|reflexivity].
  apply Qle_bool_iff in E. rewrite (Qabs_pos r H) in E.
  assert (X : 2 ^ 64 < 2 ^ 128) by (apply pow2_lt; lia). lra.
Qed.

(** The rounded square root of a value of [(0, 1]] is in [[0, 1]]. *)
Lemma round_sqrt_unit (x : Q) : 0 < x -> x <= 1 -> 0 <= round_sqrt x <= 1.
Proof.
  intros Hx U. unfold round_sqrt.
  set (q := Z.max (mag x / 2 - 23) emin).
  set (y := x * 2 ^ (- (2 * q))).
  assert (M : (mag x <= 0)%Z) by (apply mag_le; [assumption | exact U]).
  assert (M2 : (mag x / 2 <= 0)%Z).
  { apply Z.div_le_upper_bound; lia. }
  assert (Q : (q <= -23)%Z) by (unfold q, emin; lia).
  set (P := (2 ^ (- q))%Z).
  assert (P0 : (0 < P)%Z) by (apply Z.pow_pos_nonneg; lia).
  assert (Y0 : 0 <= y).
  { apply Qmult_le_0_compat; [lra | apply Qlt_le_weak, pow2_pos]. }
  assert (Y1 : y <= inject_Z (P * P)).
  { unfold y, P. rewrite <- Z.pow_add_r by lia. rewrite <- pow2_inject by lia.
    replace (- q + - q)%Z with (- (2 * q))%Z by lia.
    rewrite <- (Qmult_1_l (2 ^ (- (2 * q)))) at 2.
    apply Qmult_le_compat_r; [assumption | apply Qlt_le_weak, pow2_pos]. }
  assert (F0 : (0 <= Qfloor y)%Z).
  { pose proof (Qfloor_resp_le _ _ Y0) as F. exact F. }
  assert (F1 : (Qfloor y <= P * P)%Z).
  { pose proof (Qfloor_resp_le _ _ Y1) as F. rewrite Qfloor_Z in F. exact F. }
  set (f := Z.sqrt (Qfloor y)).
  assert (Sf0 : (0 <= f)%Z) by apply Z.sqrt_nonneg.
  assert (Sf1 : (f <= P)%Z).
  { unfold f. rewrite <- (Z.sqrt_square P) by lia. apply Z.sqrt_le_mono. exact F1. }
  assert (R : (0 <= sqrt_rne y <= P)%Z).
  { unfold sqrt_rne. fold f.
    destruct (Qcompare_spec y ((inject_Z f + (1 # 2)) * (inject_Z f + (1 # 2))))
      as [E|E|E].
    - destruct (Z.even f); [lia|].
      destruct (Z.eq_dec f P) as [->|D]; [|lia].
      rewrite inject_Z_mult in Y1.
      assert (I : 0 < inject_Z P) by (change 0 with (inject_Z 0); rewrite <- Zlt_Qlt; lia).
      nra.
    - lia.
    - destruct (Z.eq_dec f P) as [->|D]; [|lia].
      rewrite inject_Z_mult in Y1.
      assert (I : 0 < inject_Z P) by (change 0 with (inject_Z 0); rewrite <- Zlt_Qlt; lia).
      nra. }
  destruct R as [R0 R1]. rewrite Zle_Qle in R0, R1.
  assert (PQ : inject_Z P * 2 ^ q == 1).
  { unfold P. rewrite <- pow2_inject by lia. apply pow2_cancel. }
  split.
  - apply Qmult_le_0_compat; [exact R0 | apply Qlt_le_weak, pow2_pos].
  - rewrite <- PQ. apply Qmult_le_compat_r; [exact R1 | apply Qlt_le_weak, pow2_pos].
Qed.

End RoundingNonneg.

(** ** The level of a buffer *)

Section LevelFacts.

Local Unset Implicit Arguments.
Local Open Scope Q_scope.
Import Binary32.

Lemma finite_within (lo hi r : Q) :
  0 <= r -> r <= 2 ^ 64 -> lo <= r -> r <= hi -> within lo hi (finite r).
Proof.
  intros H U L B. rewrite (finite_some r H U). exists (Qred r).
  pose proof (Qred_correct r) as E. split; [reflexivity | split; lra].
Qed.

Lemma below_2p64 (r : Q) : r <= 2 ^ 24 -> r <= 2 ^ 64.
Proof.
  intros H. apply Qle_trans with (2 ^ 24); [assumption | apply pow2_le; lia].
Qed.

Lemma mul_square (s : t) : within (-1) 1 s -> within 0 1 (mul s s).
Proof.
  intros [x [-> [L U]]]. unfold mul.
  assert (A : 0 <= x * x) by nra.
  assert (B : x * x <= 2 ^ 0) by (change (2 ^ 0) with 1; nra).
  pose proof (round_nonneg _ A) as R0.
  pose proof (round_le_pow2 _ 0 ltac:(unfold emin; lia) A B) as R1.
  change (2 ^ 0) with 1 in R1.
  apply finite_within; try assumption.
  apply below_2p64. apply Qle_trans with 1; [assumption | discriminate].
Qed.

Lemma add_step (a q : t) (k : nat) :
  within 0 (cap k) a -> within 0 1 q -> within 0 (cap (S k)) (add a q).
Proof.
  intros [x [-> [X0 X1]]] [y [-> [Y0 Y1]]]. unfold add.
  assert (A : 0 <= x + y) by lra.
  pose proof (round_nonneg _ A) as R0.
  pose proof (round_sum_step x y k X0 X1 Y0 Y1) as R1.
  apply finite_within; try assumption.
  apply below_2p64. apply Qle_trans with (cap (S k)); [assumption | apply cap_le_2p24].
Qed.

Lemma sum_within (l : list t) :
  forall (acc : t) (k : nat),
    within 0 (cap k) acc -> Forall (within 0 1) l ->
    within 0 (cap (k + length l)) (fold_left add l acc).
Proof.
  induction l as [|q l IH]; intros acc k A F; simpl.
  - rewrite Nat.add_0_r. assumption.
  - inversion F as [|? ? Fq Fl]; subst.
    replace (k + S (length l))%nat with (S k + length l)%nat by lia.
    apply IH; [|assumption]. apply add_step; assumption.
Qed.

Lemma cap_positive (n : nat) : (0 < n)%nat -> 1 <= cap n.
Proof.
  intros P. unfold cap. change 1 with (inject_Z 1). rewrite <- Zle_Qle. lia.
Qed.

Lemma of_usize_bounds (n : nat) :
  (0 < n)%nat -> (Z.of_nat n < 2 ^ 64)%Z ->
  exists d, of_usize n = Some d /\ cap n <= d /\ 0 < d.
Proof.
  intros P B. unfold of_usize.
  assert (X0 : 0 <= inject_Z (Z.of_nat n)).
  { change 0 with (inject_Z 0). rewrite <- Zle_Qle. lia. }
  assert (X1 : inject_Z (Z.of_nat n) <= 2 ^ 64).
  { rewrite (pow2_inject 64) by lia. rewrite <- Zle_Qle. lia. }
  pose proof (round_nonneg _ X0) as R0.
  pose proof (round_le_pow2 _ 64 ltac:(unfold emin; lia) X0 X1) as R1.
  pose proof (round_count_ge n P) as R2.
  pose proof (cap_positive n P) as C.
  rewrite (finite_some _ R0 R1). eexists. split; [reflexivity|].
  pose proof (Qred_correct (round (inject_Z (Z.of_nat n)))) as E. split; lra.
Qed.

Lemma div_unit (a : t) (c d : Q) :
  within 0 c a -> c <= d -> 0 < d -> within 0 1 (div a (Some d)).
Proof.
  intros [x [-> [X0 X1]]] C D. unfold div.
  destruct (Qeq_bool d 0) eqn:E.
  - apply Qeq_bool_iff in E. lra.
  - assert (A : 0 <= x / d).
    { apply Qle_shift_div_l; [assumption | lra]. }
    assert (B : x / d <= 2 ^ 0).
    { change (2 ^ 0) with 1. apply Qle_shift_div_r; [assumption | lra]. }
    pose proof (round_nonneg _ A) as R0.
    pose proof (round_le_pow2 _ 0 ltac:(unfold emin; lia) A B) as R1.
    change (2 ^ 0) with 1 in R1.
    apply finite_within; try assumption.
    apply below_2p64. apply Qle_trans with 1; [assumption | discriminate].
Qed.

Lemma sqrt_unit (a : t) : within 0 1 a -> within 0 1 (sqrt a).
Proof.
  intros [x [-> [X0 X1]]]. unfold sqrt.
  destruct (Qcompare_spec x 0) as [E|E|E].
  - exists 0. split; [reflexivity | lra].
  - lra.
  - destruct (round_sqrt_unit x E X1) as [R0 R1].
    apply finite_within; try assumption.
    apply below_2p64. apply Qle_trans with 1; [assumption | discriminate].
Qed.

Lemma squares_within (samples : list t) :
  Forall (within (-1) 1) samples ->
  Forall (within 0 1) (map (fun s => mul s s) samples).
Proof.
  intros F. apply Forall_map. revert F. apply Forall_impl. apply mul_square.
Qed.

(** The level of a buffer of normalized samples is in [[0, 1]]. *)
Lemma compute_rms_unit (samples : list t) :
  Forall (within (-1) 1) samples -> (Z.of_nat (length samples) < 2 ^ 64)%Z ->
  within 0 1 (compute_rms (A := arith) samples).
Proof.
  intros F B. unfold compute_rms. destruct samples as [|s l].
  - exists 0. split; [reflexivity | lra].
  - set (samples := s :: l) in *.
    change (within 0 1
              (sqrt (div (fold_left add (map (fun s => mul s s) samples) (Some 0))
                         (of_usize (length samples))))).
    assert (P : (0 < length samples)%nat) by (simpl; lia).
    destruct (of_usize_bounds _ P B) as [d [-> [C D]]].
    apply sqrt_unit. apply div_unit with (c := cap (length samples)); try assumption.
    rewrite <- (length_map (fun s => mul s s) samples).
    apply (sum_within _ (Some 0) 0%nat).
    + exists 0. split; [reflexivity|]. split; [lra | apply cap_nonneg].
    + apply squares_within. assumption.
Qed.

Lemma finite_zero (r : Q) : r == 0 -> is_zero (finite r).
Proof.
  intros E. rewrite finite_some.
  - exists (Qred r). pose proof (Qred_correct r). split; [reflexivity | lra].
  - lra.
  - pose proof (pow2_pos 64). lra.
Qed.

Lemma add_zero (a b : t) : is_zero a -> is_zero b -> is_zero (add a b).
Proof.
  intros [x [-> X]] [y [-> Y]]. unfold add. apply finite_zero.
  rewrite round_zero; [reflexivity | lra].
Qed.

Lemma sum_zero (l : list t) :
  forall acc : t, is_zero acc -> Forall is_zero l -> is_zero (fold_left add l acc).
Proof.
  induction l as [|q l IH]; intros acc A F; simpl; [assumption|].
  inversion F; subst. apply IH; [|assumption]. apply add_zero; assumption.
Qed.

Lemma mul_zero (s : t) : is_zero s -> is_zero (mul s s).
Proof.
  intros [x [-> X]]. unfold mul. apply finite_zero.
  rewrite round_zero; [reflexivity | nra].
Qed.

(** The level of a buffer of zeros is zero. *)
Lemma compute_rms_zero (samples : list t) :
  Forall is_zero samples -> (Z.of_nat (length samples) < 2 ^ 64)%Z ->
  is_zero (compute_rms (A := arith) samples).
Proof.
  intros F B. unfold compute_rms. destruct samples as [|s l].
  - exists 0. split; reflexivity.
  - set (samples := s :: l) in *.
    change (is_zero
              (sqrt (div (fold_left add (map (fun s => mul s s) samples) (Some 0))
                         (of_usize (length samples))))).
    assert (P : (0 < length samples)%nat) by (simpl; lia).
    destruct (of_usize_bounds _ P B) as [d [-> [C D]]].
    assert (S : is_zero (fold_left add (map (fun s => mul s s) samples) (Some 0))).
    { apply sum_zero; [exists 0; split; reflexivity|].
      apply Forall_map. revert F. apply Forall_impl. apply mul_zero. }
    destruct S as [x [-> X]]. unfold div.
    destruct (Qeq_bool d 0) eqn:E; [apply Qeq_bool_iff in E; lra|].
    assert (Z : is_zero (finite (round (x / d)))).
    { apply finite_zero. rewrite round_zero; [reflexivity|].
      rewrite X. unfold Qdiv. ring. }
    destruct Z as [z [-> Z]]. unfold sqrt. apply Qeq_alt in Z. rewrite Z.
    exists 0. split; reflexivity.
Qed.

End LevelFacts.

(** ** The levels that a run emits *)

Section Frames.

Context {A : F32Arith} {T : Type} {ST : Sample T}.

Lemma chunks_aux_concat (l : list T) :
  forall (n k : nat) (cur : list T), concat (chunks_aux n k cur l) = rev cur ++ l.
Proof.
  induction l as [|x l IH]; intros n k cur; simpl.
  - destruct cur; simpl; [reflexivity|]. rewrite !app_nil_r. reflexivity.
  - destruct k as [|k]; simpl.
    + rewrite IH. reflexivity.
    + rewrite IH. simpl. rewrite <- app_assoc. reflexivity.
Qed.

Lemma chunks_concat (n : positive) (l : list T) : concat (chunks n l) = l.
Proof.
  destruct l as [|x l]; [reflexivity|]. unfold chunks.
  rewrite chunks_aux_concat. reflexivity.
Qed.

Lemma heads_In (cs : list (list T)) (y : f32) :
  In y (flat_map (fun frame => match frame with
                               | x :: _ => [to_f32 x]
                               | [] => []
                               end) cs) ->
  exists x, In x (concat cs) /\ y = to_f32 x.
Proof.
  induction cs as [|c cs IH]; simpl; [intros []|].
  intros H. apply in_app_or in H. destruct H as [H|H].
  - destruct c as [|x c]; [destruct H|]. destruct H as [<-|[]].
    exists x. split; [left; reflexivity | reflexivity].
  - destruct (IH H) as [x [Hx E]]. exists x. split; [|assumption].
    apply in_or_app. right. assumption.
Qed.

Lemma heads_length (cs : list (list T)) :
  length (flat_map (fun frame => match frame with
                                 | x :: _ => [to_f32 x]
                                 | [] => []
                                 end) cs) <= length (concat cs).
Proof.
  induction cs as [|c cs IH]; simpl; [lia|].
  rewrite !length_app. destruct c; simpl; lia.
Qed.

Lemma pushed_In (ch : positive) (data : list T) (y : f32) :
  In y (pushed ch data) -> exists x, In x data /\ y = to_f32 x.
Proof.
  intros H. apply heads_In in H. rewrite chunks_concat in H. exact H.
Qed.

Lemma pushed_length (ch : positive) (data : list T) :
  length (pushed ch data) <= length data.
Proof.
  unfold pushed. rewrite <- (chunks_concat ch data) at 2. apply heads_length.
Qed.

End Frames.

Section LevelsOfRuns.

Local Unset Implicit Arguments.

Context {W : @WhisperApi Binary32.arith} {T : Type} {ST : @Sample Binary32.arith T}.

Variable P : Binary32.t -> Prop.
Variable L : Binary32.t -> Prop.

Hypothesis level_of_buffer :
  forall buf : list Binary32.t,
    Forall P buf -> (Z.of_nat (length buf) < 2 ^ 64)%Z ->
    L (compute_rms (A := Binary32.arith) buf).

Let levels_ok (l : list (nat * Notification)) : Prop :=
  Forall (fun p => level_satisfies L (snd p)) l.

(** Closes the case of a step that leaves the buffer alone and emits
    nothing. *)
Ltac nothing_emitted :=
  repeat split;
  [assumption | lia | exists []; rewrite app_nil_r; split; [reflexivity | constructor]].

Lemma step_levels (s : System) (i : Input T) :
  Forall P (buffer (audio_ctx s)) -> input_satisfies P i ->
  (Z.of_nat (length (buffer (audio_ctx s)) + length (all_samples [i])) < 2 ^ 64)%Z ->
  Forall P (buffer (audio_ctx (step s i))) /\
  length (buffer (audio_ctx (step s i)))
  <= length (buffer (audio_ctx s)) + length (all_samples [i]) /\
  exists new, emitted (step s i) = emitted s ++ new /\ levels_ok new.
Proof.
  intros B I Len. destruct i as [e device|data|n env|path].
  - destruct e as [k| |]; try (simpl; nothing_emitted).
    unfold step, callback.
    destruct (Key_eqb k ControlRight); [|nothing_emitted].
    destruct (is_recording s); simpl.
    + repeat split; [constructor | lia |].
      eexists. split; [reflexivity|]. repeat constructor.
    + destruct device; simpl; (repeat split; [assumption | lia |]);
        (eexists; split; [reflexivity|]; repeat constructor).
  - assert (AS : all_samples [InputData data] = data) by (simpl; apply app_nil_r).
    rewrite AS in *. clear AS. simpl in I. simpl.
    destruct (stream (audio_ctx s)) as [st|]; [|nothing_emitted].
    simpl.
    assert (F : Forall P (buffer (audio_ctx s) ++ pushed (channels st) data)).
    { apply Forall_app. split; [assumption|]. apply Forall_forall.
      intros y Hy. apply pushed_In in Hy. destruct Hy as [x [Hx ->]].
      rewrite Forall_forall in I. apply I. exact Hx. }
    pose proof (pushed_length (channels st) data) as PL.
    repeat split.
    + exact F.
    + rewrite length_app. apply Nat.add_le_mono_l. exact PL.
    + eexists. split; [reflexivity|]. constructor; [|constructor]. simpl.
      apply level_of_buffer; [exact F|]. rewrite length_app.
      eapply Z.le_lt_trans; [|exact Len]. apply Nat2Z.inj_le.
      apply Nat.add_le_mono_l. exact PL.
  - simpl. destruct (nth_error (workers s) n) as [j|]; [|nothing_emitted].
    match goal with |- context [finish_worker j env ?x] =>
      destruct (finish_worker_effect j env x) as [y [E [Hy [_ [_ [_ Ea]]]]]]
    end.
    rewrite Ea, E. simpl. repeat split; [assumption | lia |].
    eexists. split; [reflexivity|]. constructor; [|constructor].
    destruct Hy as [->|[t ->]]; exact I.
  - simpl. nothing_emitted.
Qed.

Lemma run_levels (inputs : list (Input T)) :
  forall s : System,
    Forall P (buffer (audio_ctx s)) -> Forall (input_satisfies P) inputs ->
    (Z.of_nat (length (buffer (audio_ctx s)) + length (all_samples inputs)) < 2 ^ 64)%Z ->
    levels_ok (emitted s) -> levels_ok (emitted (run s inputs)).
Proof.
  induction inputs as [|i l IH]; intros s B F Len E; [exact E|].
  inversion F as [|? ? Fi Fl]; subst.
  assert (AS : all_samples (i :: l) = all_samples [i] ++ all_samples l).
  { simpl. rewrite app_nil_r. reflexivity. }
  rewrite AS, length_app in Len. clear AS.
  assert (Len1 : (Z.of_nat (length (buffer (audio_ctx s)) + length (all_samples [i]))
                  < 2 ^ 64)%Z) by lia.
  destruct (step_levels s i B Fi Len1) as [B' [L' [new [En Hn]]]].
  change (run s (i :: l)) with (run (step s i) l). apply IH.
  - exact B'.
  - exact Fl.
  - lia.
  - rewrite En. apply Forall_app. split; assumption.
Qed.

End LevelsOfRuns.

Section AudioLevels.

Local Unset Implicit Arguments.

Context {W : @WhisperApi Binary32.arith} {T : Type} {ST : @Sample Binary32.arith T}.

(** C9: in every run whose audio callbacks deliver samples that are
    normalized once converted to [f32], fewer than [2 ^ 64] in all, every
    [audio_level] emitted is finite and lies in [[0, 1]]; and whenever
    the samples accumulated in the buffer are all zero, the level that
    the callback emits is zero. *)
Theorem C9_audio_level_in_unit (inputs : list (Input T))
  (s : System) (ch : positive) (data : list T) :
  Forall normalized_input inputs ->
  (Z.of_nat (length (all_samples inputs)) < 2 ^ 64)%Z ->
  Forall (fun p => level_in_unit (snd p)) (emitted (run init inputs)) /\
  (Forall Binary32.is_zero (buffer (audio_ctx (input_callback ch data s))) ->
   (Z.of_nat (length (buffer (audio_ctx (input_callback ch data s)))) < 2 ^ 64)%Z ->
   exists r,
     emitted (input_callback ch data s)
     = emitted s ++ [(current_session s, audio_level r)] /\
     Binary32.is_zero r).
Proof.
  intros N Len. split.
  - apply (run_levels (Binary32.within (-1) 1) (Binary32.within 0 1)
             compute_rms_unit inputs init); simpl; try assumption; constructor.
  - intros Z B.
    exists (compute_rms (A := Binary32.arith)
              (buffer (audio_ctx (input_callback ch data s)))).
    split; [reflexivity|]. apply compute_rms_zero; assumption.
Qed.

End AudioLevels.

Lemma C9_audio_level_in_unit_witness :
  let inputs := [Stub.toggle; InputData [Some (1 # 2)%Q; Some (-1 # 4)%Q];
                 InputData [Some 0%Q]; Stub.toggle] in
  let s := step Stub.start Stub.toggle in
  let silence := [Some 0%Q; Some 0%Q] in
  Forall normalized_input inputs /\
  (Z.of_nat (length (all_samples inputs)) < 2 ^ 64)%Z /\
  Forall (fun p => level_in_unit (snd p)) (emitted (run (W := Stub.api) init inputs)) /\
  exists r,
    emitted (input_callback 1%positive silence s)
    = emitted s ++ [(current_session s, audio_level r)] /\
    Binary32.is_zero r.
Proof.
  cbv zeta.
  assert (N : Forall normalized_input
                [Stub.toggle; InputData [Some (1 # 2)%Q; Some (-1 # 4)%Q];
                 InputData [Some 0%Q]; Stub.toggle]).
  { repeat constructor;
      (eexists; split; [reflexivity | split; discriminate]). }
  assert (B : (Z.of_nat (length (all_samples
                [Stub.toggle; InputData [Some (1 # 2)%Q; Some (-1 # 4)%Q];
                 InputData [Some 0%Q]; Stub.toggle])) < 2 ^ 64)%Z)
    by reflexivity.
  destruct (C9_audio_level_in_unit (W := Stub.api) _ (step Stub.start Stub.toggle)
              1%positive [Some 0%Q; Some 0%Q] N B) as [U Z].
  split; [exact N|]. split; [exact B|]. split; [exact U|].
  apply Z.
  - repeat constructor; (eexists; split; reflexivity).
  - reflexivity.
Defined.

(** ** Single precision on known values *)

Example round_third :
  Qred (Binary32.round (1 # 3)) = (11184811 # 33554432)%Q.
Proof. vm_compute. reflexivity. Qed.

Example round_tenth :
  Qred (Binary32.round (1 # 10)) = (13421773 # 134217728)%Q.
Proof. vm_compute. reflexivity. Qed.

Example round_tie_to_even :
  Qred (Binary32.round (16777217 # 1)) = (16777216 # 1)%Q /\
  Qred (Binary32.round (16777219 # 1)) = (16777220 # 1)%Q.
Proof. vm_compute. split; reflexivity. Qed.

Example round_gradual_underflow :
  Qred (Binary32.round (1 # 2 ^ 150)) = 0%Q /\
  Qred (Binary32.round (3 # 2 ^ 150)) = (1 # 2 ^ 148)%Q.
Proof. vm_compute. split; reflexivity. Qed.

Example round_overflow :
  Binary32.finite (Binary32.round (2 ^ 128 - 2 ^ 103)) = None /\
  Binary32.finite (Binary32.round (2 ^ 128 - 2 ^ 104))
  = Some (340282346638528859811704183484516925440 # 1)%Q.
Proof. vm_compute. split; reflexivity. Qed.

Example sqrt_two :
  Binary32.sqrt (Some 2%Q) = Some (11863283 # 8388608)%Q.
Proof. vm_compute. reflexivity. Qed.

Example rms_of_half_and_quarter :
  compute_rms (A := Binary32.arith) [Some (1 # 2)%Q; Some (1 # 4)%Q]
  = Some (6631777 # 16777216)%Q.
Proof. vm_compute. reflexivity. Qed.

(** ** The first channel of every frame *)

Section Last.

Local Unset Implicit Arguments.

Context {X : Type}.

Lemma last_default (x y c : X) (cur : list X) : last (c :: cur) x = last (c :: cur) y.
Proof.
  revert c. induction cur as [|a cur IH]; intro c; [reflexivity|].
  change (last (c :: a :: cur) x) with (last (a :: cur) x).
  change (last (c :: a :: cur) y) with (last (a :: cur) y).
  apply IH.
Qed.

End Last.

Section FirstChannel.

Local Unset Implicit Arguments.

Context {A : F32Arith} {T : Type} {ST : Sample T}.

Let heads (cs : list (list T)) : list f32 :=
  flat_map (fun frame => match frame with
                         | x :: _ => [to_f32 x]
                         | [] => []
                         end) cs.

Lemma rev_head (c : T) (cur : list T) :
  exists r, rev (c :: cur) = last (c :: cur) c :: r.
Proof.
  destruct (rev (c :: cur)) as [|h r] eqn:E.
  - apply (f_equal (@length T)) in E. rewrite length_rev in E. discriminate.
  - exists r. f_equal.
    assert (R : c :: cur = rev (h :: r)) by (rewrite <- E, rev_involutive; reflexivity).
    rewrite R. simpl rev. rewrite last_last. reflexivity.
Qed.

Lemma heads_chunks_aux (n : nat) (l : list T) :
  forall (k : nat) (c : T) (cur : list T),
    heads (chunks_aux n k (c :: cur) l)
    = to_f32 (last (c :: cur) c)
      :: heads (match skipn k l with
                | [] => []
                | y :: l' => chunks_aux n (n - 1) [y] l'
                end).
Proof.
  induction l as [|x l IH]; intros k c cur.
  - rewrite skipn_nil. destruct (rev_head c cur) as [r E].
    change (chunks_aux n k (c :: cur) []) with [rev (c :: cur)].
    rewrite E. reflexivity.
  - destruct k as [|k].
    + destruct (rev_head c cur) as [r E].
      change (chunks_aux n 0 (c :: cur) (x :: l))
        with (rev (c :: cur) :: chunks_aux n (n - 1) [x] l).
      rewrite E. reflexivity.
    + change (chunks_aux n (S k) (c :: cur) (x :: l))
        with (chunks_aux n k (x :: c :: cur) l).
      rewrite (IH k x (c :: cur)).
      change (last (x :: c :: cur) x) with (last (c :: cur) x).
      rewrite (last_default x c c cur). reflexivity.
Qed.

Lemma pushed_cons (ch : positive) (x : T) (l : list T) :
  pushed ch (x :: l) = to_f32 x :: pushed ch (skipn (Pos.to_nat ch - 1) l).
Proof.
  unfold pushed, chunks at 1. fold (heads (chunks_aux (Pos.to_nat ch) (Pos.to_nat ch - 1) [x] l)).
  rewrite heads_chunks_aux. simpl last. f_equal.
Qed.

Lemma pushed_nth (ch : positive) (i : nat) :
  forall data : list T,
    nth_error (pushed ch data) i
    = option_map to_f32 (nth_error data (i * Pos.to_nat ch)).
Proof.
  pose proof (Pos2Nat.is_pos ch) as Hn.
  induction i as [|i IH]; intros [|x l].
  - reflexivity.
  - rewrite pushed_cons. reflexivity.
  - destruct (S i * Pos.to_nat ch); reflexivity.
  - rewrite pushed_cons. simpl nth_error at 1. rewrite IH.
    rewrite nth_error_skipn. f_equal.
    replace (S i * Pos.to_nat ch) with (S (Pos.to_nat ch - 1 + i * Pos.to_nat ch)) by lia.
    reflexivity.
Qed.

Lemma pushed_count (ch : positive) (m : nat) :
  forall data : list T,
    length data <= m ->
    length (pushed ch data) = (length data + Pos.to_nat ch - 1) / Pos.to_nat ch.
Proof.
  pose proof (Pos2Nat.is_pos ch) as Hn.
  induction m as [|m IH]; intros [|x l] Hl; simpl in Hl; try lia.
  - simpl. symmetry. apply Nat.div_small. lia.
  - simpl. symmetry. apply Nat.div_small. lia.
  - rewrite pushed_cons. simpl length. rewrite IH by (rewrite length_skipn; lia).
    rewrite length_skipn.
    destruct (le_lt_dec (Pos.to_nat ch - 1) (length l)) as [G|G].
    + replace (S (length l) + Pos.to_nat ch - 1)
        with (length l - (Pos.to_nat ch - 1) + Pos.to_nat ch - 1 + 1 * Pos.to_nat ch) by lia.
      rewrite Nat.div_add by lia. lia.
    + replace (length l - (Pos.to_nat ch - 1)) with 0 by lia.
      replace (S (length l) + Pos.to_nat ch - 1) with (length l + 1 * Pos.to_nat ch) by lia.
      rewrite Nat.div_add by lia.
      rewrite (Nat.div_small (length l)) by lia.
      rewrite (Nat.div_small (0 + Pos.to_nat ch - 1)) by lia. reflexivity.
Qed.

(** X1: the data callback keeps one sample per frame, the one of the
    first channel: the [i]-th sample pushed is the converted sample at
    index [i * channels] of the data, a last frame that is cut short
    still gives its first sample, and a mono stream is pushed whole. *)
Theorem pushed_is_first_channel (ch : positive) (data : list T) (i : nat) :
  nth_error (pushed ch data) i
  = option_map to_f32 (nth_error data (i * Pos.to_nat ch)) /\
  length (pushed ch data) = (length data + Pos.to_nat ch - 1) / Pos.to_nat ch /\
  pushed 1%positive data = map to_f32 data.
Proof.
  split; [apply pushed_nth|]. split; [apply (pushed_count ch (length data)); lia|].
  induction data as [|x l IH]; [reflexivity|].
  rewrite pushed_cons. simpl. rewrite IH. reflexivity.
Qed.

End FirstChannel.

(** ** Trimmed text *)

Lemma trim_start_head (s : text) (c : char) (r : text) :
  trim_start s = c :: r -> is_whitespace c = false.
Proof.
  induction s as [|a s IH]; [discriminate|]. simpl.
  destruct (is_whitespace a) eqn:E; [exact IH|].
  intro H. injection H as -> _. exact E.
Qed.

Lemma trim_start_suffix (s : text) : exists p, s = p ++ trim_start s.
Proof.
  induction s as [|a s [p IH]]; [exists []; reflexivity|]. simpl.
  destruct (is_whitespace a).
  - exists (a :: p). simpl. f_equal. exact IH.
  - exists []. reflexivity.
Qed.

Lemma trim_trimmed (s : text) : trimmed (trim s) = true.
Proof.
  unfold trim, trim_end.
  destruct (trim_start_suffix (rev (trim_start s))) as [p E].
  destruct (trim_start (rev (trim_start s))) as [|c v] eqn:V; [reflexivity|].
  pose proof (trim_start_head _ V) as Wc.
  apply (f_equal (@rev char)) in E. rewrite rev_involutive, rev_app_distr in E.
  simpl rev in *.
  destruct (rev v ++ [c]) as [|h u] eqn:U.
  - destruct (rev v); discriminate.
  - unfold trimmed.
    assert (L : last (h :: u) h = c) by (rewrite <- U; apply last_last).
    rewrite L, Wc.
    simpl in E. rewrite (trim_start_head _ E). reflexivity.
Qed.

(** ** One step at a time *)

Section StepFacts.

Local Unset Implicit Arguments.

Context {A : F32Arith} {W : WhisperApi} {T : Type} {ST : Sample T}.

Lemma toggle_is_right_control (e : EventType) (device : option positive) :
  is_toggle (Hook (T := T) e device) = true -> e = KeyPress ControlRight.
Proof.
  destruct e as [k| |]; try discriminate. destruct k; try discriminate. reflexivity.
Qed.

(** The state in which the worker at index [n] finishes. *)
Let without (n : nat) (s : System) : System :=
  {| is_recording := is_recording s; audio_ctx := audio_ctx s;
     whisper_state := whisper_state s;
     workers := remove_nth n (workers s);
     session_count := session_count s; emitted := emitted s;
     desktop := desktop s; inference_calls := inference_calls s |}.

Lemma step_worker (s : System) (n : nat) (env : ClipboardEnv) :
  step (T := T) s (WorkerDone n env)
  = match nth_error (workers s) n with
    | Some j => finish_worker j env (without n s)
    | None => s
    end.
Proof. reflexivity. Qed.

Lemma step_flag (s : System) (i : Input T) :
  is_recording (step s i)
  = (if is_toggle i then negb (is_recording s) else is_recording s) /\
  session_count (step s i)
  = (if is_toggle i && negb (is_recording s) then S (session_count s)
     else session_count s).
Proof.
  destruct i as [e device|data|n env|path].
  - destruct (is_toggle (Hook e device)) eqn:E.
    + apply toggle_is_right_control in E. subst e.
      destruct (is_recording s) eqn:R.
      * rewrite (step_stop s device R). split; reflexivity.
      * rewrite (step_start s device R). destruct device; split; reflexivity.
    + rewrite (step_not_toggle_hook s e device E). split; reflexivity.
  - simpl. destruct (stream (audio_ctx s)); split; reflexivity.
  - rewrite step_worker. destruct (nth_error (workers s) n) as [j|]; [|split; reflexivity].
    destruct (finish_worker_effect j env (without n s)) as [y [_ [_ [_ [R [C _]]]]]].
    rewrite R, C. split; reflexivity.
  - split; reflexivity.
Qed.

Lemma toggles_snoc (l : list (Input T)) (i : Input T) :
  toggles (l ++ [i]) = toggles l + (if is_toggle i then 1 else 0).
Proof.
  unfold toggles. rewrite filter_app, length_app. simpl.
  destruct (is_toggle i); reflexivity.
Qed.

Lemma run_whisper_facts (samples : list f32) (ws : WhisperState) :
  model_path (run_state (run_whisper_on_buffer samples ws)) = model_path ws /\
  (ctx (run_state (run_whisper_on_buffer samples ws)) = None <-> ctx ws = None) /\
  length (run_calls (run_whisper_on_buffer samples ws)) <= 1 /\
  (forall t, run_text (run_whisper_on_buffer samples ws) = Some t ->
             trimmed t = true /\ run_calls (run_whisper_on_buffer samples ws) = [samples]).
Proof.
  unfold run_whisper_on_buffer. destruct (ctx ws) as [c|] eqn:C.
  - destruct (full c params samples) as [c' [u|e]]; simpl;
      (split; [reflexivity|]); (split; [split; discriminate|]);
      (split; [lia|]); intros t H; [|discriminate].
    injection H as <-. split; [apply trim_trimmed | reflexivity].
  - simpl. split; [reflexivity|]. split; [tauto|]. split; [lia|]. discriminate.
Qed.

Lemma finish_worker_cases (j : Job) (env : ClipboardEnv) (s : System) :
  whisper_state (finish_worker j env s)
  = run_state (run_whisper_on_buffer (job_buffer j) (whisper_state s)) /\
  inference_calls (finish_worker j env s)
  = inference_calls s ++ run_calls (run_whisper_on_buffer (job_buffer j) (whisper_state s)) /\
  match run_text (run_whisper_on_buffer (job_buffer j) (whisper_state s)) with
  | Some t =>
      desktop (finish_worker j env s) = copy_to_clipboard_and_paste t env (desktop s) /\
      emitted (finish_worker j env s) = emitted s ++ [(job_session j, transcription_done t)]
  | None =>
      desktop (finish_worker j env s) = desktop s /\
      emitted (finish_worker j env s) = emitted s ++ [(job_session j, transcription_error)]
  end.
Proof.
  unfold finish_worker.
  destruct (run_text (run_whisper_on_buffer (job_buffer j) (whisper_state s)));
    simpl; repeat split.
Qed.


Lemma done_texts_snoc (s s' : System) (k : nat) (n : Notification) :
  emitted s' = emitted s ++ [(k, n)] ->
  done_texts s' = done_texts s ++ match n with transcription_done t => [t] | _ => [] end.
Proof.
  intro E. unfold done_texts. rewrite E, flat_map_app. simpl.
  rewrite app_nil_r. reflexivity.
Qed.

Lemma step_kind (s : System) (i : Input T) : StepKind s i.
Proof.
  destruct i as [e device|data|n env|path].
  - apply QuietStep; try discriminate.
    all: destruct (is_toggle (Hook (T := T) e device)) eqn:E;
      [apply toggle_is_right_control in E; subst e;
       destruct (is_recording s) eqn:R;
       [rewrite (step_stop s device R) | rewrite (step_start s device R); destruct device]
      | rewrite (step_not_toggle_hook s e device E)];
      try reflexivity.
    all: try (unfold done_texts; simpl; rewrite flat_map_app; simpl;
              rewrite app_nil_r; reflexivity).
    all: unfold count_where; simpl; rewrite map_app, filter_app, length_app; simpl; lia.
  - apply QuietStep; try discriminate; simpl; destruct (stream (audio_ctx s)); try reflexivity.
    + unfold done_texts. simpl. rewrite flat_map_app. simpl. rewrite app_nil_r. reflexivity.
    + unfold count_where. simpl. rewrite map_app, filter_app, length_app. simpl. lia.
  - destruct (nth_error (workers s) n) as [j|] eqn:N.
    + pose proof (finish_worker_cases j env (without n s)) as [Hw [Hi Hd]].
      change (whisper_state (without n s)) with (whisper_state s) in *.
      change (inference_calls (without n s)) with (inference_calls s) in *.
      change (desktop (without n s)) with (desktop s) in *.
      change (emitted (without n s)) with (emitted s) in *.
      apply FinishStep with (n := n) (env := env) (j := j); try reflexivity;
        rewrite step_worker, N; try assumption.
      * destruct (run_text (run_whisper_on_buffer (job_buffer j) (whisper_state s)));
          destruct Hd as [_ He];
          rewrite (count_where_snoc is_terminal s (finish_worker j env (without n s)) _ _ He);
          simpl; lia.
      * destruct (run_text (run_whisper_on_buffer (job_buffer j) (whisper_state s)));
          destruct Hd as [Hd He]; (split; [exact Hd|]);
          rewrite (done_texts_snoc s (finish_worker j env (without n s)) _ _ He);
          simpl; try rewrite app_nil_r; reflexivity.
    + apply QuietStep; try discriminate; rewrite step_worker, N; reflexivity.
  - apply LoadStep with (path := path); reflexivity.
Qed.

End StepFacts.

(** ** Whole runs *)

Section RunFacts.

Local Unset Implicit Arguments.

Context {A : F32Arith} {W : WhisperApi} {T : Type} {ST : Sample T}.

(** X2: the recording flag is the parity of the presses of the right
    Control key, whatever else happens in between (other keys, releases,
    audio, workers finishing, models loading), and the recordings started
    number half the presses, rounded up. *)
Theorem flag_is_parity_of_presses (inputs : list (Input T)) :
  is_recording (run init inputs) = Nat.odd (toggles inputs) /\
  session_count (run init inputs) = Nat.div2 (S (toggles inputs)).
Proof.
  induction inputs as [|i l [IHr IHc]] using rev_ind; [split; reflexivity|].
  rewrite run_snoc, toggles_snoc.
  destruct (step_flag (run init l) i) as [R C]. rewrite R, C, IHr, IHc.
  pose proof (Nat.div2_odd (toggles l)) as D.
  destruct (is_toggle i); simpl andb.
  - replace (toggles l + 1) with (S (toggles l)) by lia.
    rewrite Nat.odd_succ, Nat.negb_odd. split; [reflexivity|].
    pose proof (Nat.div2_odd (S (toggles l))) as D1.
    pose proof (Nat.div2_odd (S (S (toggles l)))) as D2.
    rewrite Nat.odd_succ in D1. rewrite Nat.odd_succ, Nat.even_succ in D2.
    rewrite <- Nat.negb_odd in D1 |- *.
    destruct (Nat.odd (toggles l)); simpl in *; lia.
  - rewrite Nat.add_0_r. split; reflexivity.
Qed.

Lemma active_model_snoc (l : list (Input T)) (i : Input T) :
  active_model (l ++ [i])
  = match i with
    | InvokeSetActiveModel path => if loads path then Some path else active_model l
    | _ => active_model l
    end.
Proof. unfold active_model. rewrite fold_left_app. reflexivity. Qed.

(** X3: in every reachable state the recorded model path is the path of
    the last [set_active_model] that loaded, and a context is held exactly
    when there is such a path: a load that fails, an inference that fails
    and a recording never unload the model ([run_whisper_on_buffer]
    borrowing the context from the state, the one step that the source
    leaves out). *)
Theorem model_stays_loaded (inputs : list (Input T)) :
  model_path (whisper_state (run init inputs)) = active_model inputs /\
  (ctx (whisper_state (run init inputs)) = None <-> active_model inputs = None).
Proof.
  induction inputs as [|i l [IHp IHc]] using rev_ind; [split; [reflexivity|tauto]|].
  rewrite run_snoc, active_model_snoc.
  destruct (step_kind (run init l) i) as [Hw _ _ _ _ Hi|path -> Hw _ _ _ _|n env j -> Hw _ _ _].
  - rewrite Hw. destruct i; try (split; assumption). exfalso. exact (Hi _ eq_refl).
  - rewrite Hw. unfold set_active_model, loads.
    destruct (WhisperContext_new path); simpl.
    + split; [reflexivity|]. split; discriminate.
    + split; assumption.
  - rewrite Hw.
    destruct (run_whisper_facts (job_buffer j) (whisper_state (run init l)))
      as [Hp [Hc _]].
    rewrite Hp. split; [exact IHp|]. rewrite Hc. exact IHc.
Qed.

Lemma paste_simulated (t : text) (env : ClipboardEnv) (d : Desktop) :
  simulated (copy_to_clipboard_and_paste t env d) = simulated d ++ paste_keys.
Proof.
  unfold copy_to_clipboard_and_paste, copy_to_clipboard, simulate_ctrl_v.
  destruct (clipboard_new_ok env); reflexivity.
Qed.

(** X4: the keystrokes of a paste are injected once for every
    [transcription_done] and at no other time, so never for a
    transcription that failed; every text handed to the clipboard, and
    the text that the backend left in it, was announced by a
    [transcription_done]. *)
Theorem one_paste_per_transcript (inputs : list (Input T)) :
  simulated (desktop (run init inputs))
  = flat_map (fun _ => paste_keys) (done_texts (run init inputs)) /\
  length (set_text_calls (desktop (run init inputs)))
  <= length (done_texts (run init inputs)) /\
  Forall (fun t => In t (done_texts (run init inputs)))
         (set_text_calls (desktop (run init inputs))) /\
  (forall t, clipboard (desktop (run init inputs)) = Some t ->
             In t (done_texts (run init inputs))).
Proof.
  induction inputs as [|i l [IHs [IHn [IHf IHc]]]] using rev_ind.
  - repeat split; try constructor. discriminate.
  - rewrite run_snoc.
    destruct (step_kind (run init l) i)
      as [_ Hd _ Ht _ _|path _ _ Hd _ Ht _|n env j _ _ _ _ H].
    + rewrite Hd, Ht. repeat split; assumption.
    + rewrite Hd, Ht. repeat split; assumption.
    + destruct (run_text (run_whisper_on_buffer (job_buffer j)
                            (whisper_state (run init l)))) as [t|];
        destruct H as [Hd Ht]; rewrite Hd, Ht; [|repeat split; assumption].
      assert (Old : Forall (fun t0 => In t0 (done_texts (run init l) ++ [t]))
                           (set_text_calls (desktop (run init l)))).
      { eapply Forall_impl; [|exact IHf]. intros a Ha.
        apply in_or_app. left. exact Ha. }
      split; [rewrite paste_simulated, IHs, flat_map_app; reflexivity|].
      unfold copy_to_clipboard_and_paste, copy_to_clipboard, simulate_ctrl_v.
      rewrite length_app. simpl length.
      destruct (clipboard_new_ok env); simpl.
      * split; [rewrite length_app; simpl; lia|].
        split; [apply Forall_app; split;
                [exact Old | constructor; [apply in_or_app; right; left; reflexivity
                                          | constructor]]|].
        intros t0. destruct (set_text_ok env).
        -- intro E. injection E as <-. apply in_or_app. right. left. reflexivity.
        -- intro E. apply in_or_app. left. apply IHc. exact E.
      * split; [lia|]. split; [exact Old|].
        intros t0 E. apply in_or_app. left. apply IHc. exact E.
Qed.



(** X6: a transcript never starts or ends with white space, in
    whatever run it is announced. *)
Theorem transcripts_are_trimmed (inputs : list (Input T)) :
  Forall (fun t => trimmed t = true) (done_texts (run init inputs)).
Proof.
  induction inputs as [|i l IH] using rev_ind; [constructor|].
  rewrite run_snoc.
  destruct (step_kind (run init l) i)
    as [_ _ _ Ht _ _|path _ _ _ _ Ht _|n env j _ _ _ _ H].
  - rewrite Ht. exact IH.
  - rewrite Ht. exact IH.
  - destruct (run_whisper_facts (job_buffer j) (whisper_state (run init l)))
      as [_ [_ [_ Hr]]].
    destruct (run_text (run_whisper_on_buffer (job_buffer j)
                          (whisper_state (run init l)))) as [t|];
      destruct H as [_ Ht]; rewrite Ht; [|exact IH].
    apply Forall_app. split; [exact IH|].
    constructor; [|constructor]. apply (Hr t eq_refl).
Qed.

(** X7: Whisper runs at most once for every recording that has been
    closed, and once at least for every transcript announced. *)
Theorem one_inference_per_recording (inputs : list (Input T)) :
  length (done_texts (run init inputs)) <= length (inference_calls (run init inputs)) /\
  length (inference_calls (run init inputs)) <= count_where is_terminal (run init inputs).
Proof.
  induction inputs as [|i l [IHd IHi]] using rev_ind; [split; simpl; lia|].
  rewrite run_snoc.
  destruct (step_kind (run init l) i)
    as [_ _ Hi Ht Hc _|path _ _ _ Hi Ht Hc|n env j _ _ Hi Hc H].
  - rewrite Hi, Ht, Hc. split; assumption.
  - rewrite Hi, Ht, Hc. split; assumption.
  - rewrite Hi, Hc, length_app.
    destruct (run_whisper_facts (job_buffer j) (whisper_state (run init l)))
      as [_ [_ [Hl Hr]]].
    destruct (run_text (run_whisper_on_buffer (job_buffer j)
                          (whisper_state (run init l)))) as [t|];
      destruct H as [_ Ht]; rewrite Ht.
    + destruct (Hr t eq_refl) as [_ ->]. rewrite length_app. simpl. lia.
    + lia.
Qed.





End RunFacts.

(** ** A buffer at full scale *)

Section FullScale.

Local Unset Implicit Arguments.
Local Open Scope Q_scope.
Import Binary32.

Lemma round_pos_ge_below (x : Q) (k : Z) :
  (0 < k)%Z -> inject_Z k <= x -> x < 2 ^ 24 -> inject_Z k <= round_pos x.
Proof.
  intros P L U.
  assert (Hx : 0 < x).
  { apply Qlt_le_trans with (inject_Z k); [|assumption].
    change 0 with (inject_Z 0). rewrite <- Zlt_Qlt. lia. }
  assert (M : (mag x < 24)%Z) by (apply mag_lt; assumption).
  assert (Q : (ulp_exp x <= 0)%Z) by (unfold ulp_exp, emin; lia).
  assert (E : inject_Z k == inject_Z (k * 2 ^ (- ulp_exp x)) * 2 ^ ulp_exp x).
  { rewrite inject_Z_mult, <- pow2_inject by lia.
    rewrite <- Qmult_assoc, pow2_cancel. ring. }
  rewrite E. apply round_pos_ge. rewrite inject_Z_mult, <- pow2_inject by lia.
  apply Qmult_le_compat_r; [assumption | apply Qlt_le_weak, pow2_pos].
Qed.

(** The integers up to [2 ^ 24] are values of the format. *)
Lemma round_int (x : Q) (k : Z) :
  (0 <= k <= 2 ^ 24)%Z -> x == inject_Z k -> round x == inject_Z k.
Proof.
  intros [L U] E.
  destruct (Z.eq_dec k 0) as [->|N0].
  - rewrite (round_zero x E). reflexivity.
  - assert (Hk : 0 < inject_Z k) by (change 0 with (inject_Z 0); rewrite <- Zlt_Qlt; lia).
    assert (Hx : 0 < x) by lra.
    rewrite (round_positive x Hx).
    destruct (Z.eq_dec k (2 ^ 24)) as [->|N1].
    + rewrite <- (pow2_inject 24) in * by lia.
      apply round_pos_tie_2p24; lra.
    + apply Qle_antisym.
      * apply round_pos_le_int; [assumption | lra | lia].
      * apply round_pos_ge_below; [lia | lra |].
        rewrite E, (pow2_inject 24) by lia. rewrite <- Zlt_Qlt. lia.
Qed.

Lemma Qred_inject_Z (k : Z) : Qred (inject_Z k) = inject_Z k.
Proof.
  unfold inject_Z, Qred.
  pose proof (Z.ggcd_gcd k 1) as G. pose proof (Z.ggcd_correct_divisors k 1) as D.
  destruct (Z.ggcd k 1) as [g [a b]]. simpl in G, D. simpl.
  rewrite Z.gcd_1_r in G. destruct D as [D1 D2].
  assert (Ha : a = k) by lia. assert (Hb : b = 1%Z) by lia.
  rewrite Ha, Hb. reflexivity.
Qed.

Lemma finite_int (r : Q) (k : Z) :
  (0 <= k <= 2 ^ 24)%Z -> r == inject_Z k -> finite r = Some (inject_Z k).
Proof.
  intros [L U] E.
  assert (K0 : 0 <= inject_Z k) by (change 0 with (inject_Z 0); rewrite <- Zle_Qle; lia).
  assert (K1 : inject_Z k <= 2 ^ 24).
  { rewrite (pow2_inject 24) by lia. rewrite <- Zle_Qle. lia. }
  rewrite finite_some; [| lra | apply below_2p64; lra].
  rewrite (Qred_complete _ _ E), Qred_inject_Z. reflexivity.
Qed.

Lemma add_one (k : Z) :
  (0 <= k <= 2 ^ 24)%Z ->
  add (Some (inject_Z k)) (Some 1) = Some (inject_Z (Z.min (k + 1) (2 ^ 24))).
Proof.
  intros [L U]. unfold add.
  destruct (Z.eq_dec k (2 ^ 24)) as [->|N].
  - rewrite Z.min_r by lia. apply finite_int; [lia|].
    assert (P : 0 < inject_Z (2 ^ 24) + 1) by reflexivity.
    rewrite (round_positive _ P).
    transitivity (2 ^ 24); [|apply pow2_inject; lia].
    apply round_pos_tie_2p24; apply Qle_bool_imp_le; reflexivity.
  - rewrite Z.min_l by lia. apply finite_int; [lia|].
    apply round_int; [lia|]. rewrite inject_Z_plus. reflexivity.
Qed.

Lemma sum_of_ones (n : nat) :
  forall k : Z,
    (0 <= k <= 2 ^ 24)%Z ->
    fold_left add (repeat (Some 1) n) (Some (inject_Z k))
    = Some (inject_Z (Z.min (k + Z.of_nat n) (2 ^ 24))).
Proof.
  induction n as [|n IH]; intros k K.
  - simpl. rewrite Z.add_0_r, Z.min_l by lia. reflexivity.
  - change (fold_left add (repeat (Some 1) (S n)) (Some (inject_Z k)))
      with (fold_left add (repeat (Some 1) n) (add (Some (inject_Z k)) (Some 1))).
    rewrite (add_one k K), IH by lia.
    f_equal. f_equal. lia.
Qed.

Lemma squares_of_ones (n : nat) :
  map (fun s : t => mul s s) (repeat (Some 1) n) = repeat (Some 1) n.
Proof.
  induction n as [|n IH]; [reflexivity|].
  simpl. rewrite IH. f_equal.
Qed.

Lemma of_usize_int (n : nat) :
  (Z.of_nat n <= 2 ^ 24)%Z -> of_usize n = Some (inject_Z (Z.of_nat n)).
Proof.
  intro U. unfold of_usize. apply finite_int; [lia|]. apply round_int; [lia|reflexivity].
Qed.

(** X9: a buffer of [n] samples at full scale, for [n] up to [2 ^ 24],
    has the level one exactly: no rounding error builds up on the way. *)
Theorem full_scale_level_is_one (n : nat) :
  (0 < n)%nat -> (Z.of_nat n <= 2 ^ 24)%Z ->
  compute_rms (A := arith) (repeat (Some 1) n) = Some 1.
Proof.
  intros P U. destruct n as [|m]; [lia|].
  change (compute_rms (A := arith) (repeat (Some 1) (S m)))
    with (sqrt (div (fold_left add (map (fun s : t => mul s s) (repeat (Some 1) (S m)))
                       (Some (inject_Z 0)))
                    (of_usize (length (repeat (Some 1 : t) (S m)))))).
  rewrite squares_of_ones, repeat_length, (of_usize_int _ U).
  rewrite (sum_of_ones (S m) 0) by lia.
  rewrite Z.add_0_l, Z.min_l by lia.
  assert (D : div (Some (inject_Z (Z.of_nat (S m)))) (Some (inject_Z (Z.of_nat (S m))))
              = Some (inject_Z 1)).
  { unfold div.
    assert (Hn : 0 < inject_Z (Z.of_nat (S m))).
    { change 0 with (inject_Z 0). rewrite <- Zlt_Qlt. lia. }
    destruct (Qeq_bool (inject_Z (Z.of_nat (S m))) 0) eqn:E.
    - apply Qeq_bool_iff in E. lra.
    - apply finite_int; [lia|]. apply round_int; [lia|].
      change (inject_Z 1) with 1. field. lra. }
  rewrite D. vm_compute. reflexivity.
Qed.

(** X10: from [2 ^ 24] samples on, the running sum of the squares of a
    buffer at full scale stays at [2 ^ 24] while the divisor goes on
    growing, so the level falls short of one: with [2 ^ 26] samples it
    is one half. *)
Theorem full_scale_sum_stalls (n : nat) :
  (2 ^ 24 <= Z.of_nat n)%Z ->
  fold_left f32_add (map (fun s : t => f32_mul s s) (repeat (Some 1) n)) f32_zero
  = Some (inject_Z (2 ^ 24)) /\
  compute_rms (A := arith) (repeat (Some 1) n)
  = sqrt (div (Some (inject_Z (2 ^ 24))) (of_usize n)) /\
  (Z.of_nat n = (2 ^ 26)%Z ->
   compute_rms (A := arith) (repeat (Some 1) n) = Some (1 # 2)).
Proof.
  intros L.
  assert (Sum : fold_left add (map (fun s : t => mul s s) (repeat (Some 1) n))
                (Some (inject_Z 0))
              = Some (inject_Z (2 ^ 24))).
  { rewrite squares_of_ones, (sum_of_ones n 0) by lia.
    rewrite Z.min_r by lia. reflexivity. }
  assert (C : compute_rms (A := arith) (repeat (Some 1) n)
              = sqrt (div (Some (inject_Z (2 ^ 24))) (of_usize n))).
  { destruct n as [|m]; [simpl in L; lia|].
    change (compute_rms (A := arith) (repeat (Some 1) (S m)))
      with (sqrt (div (fold_left add (map (fun s : t => mul s s) (repeat (Some 1) (S m)))
                         (Some (inject_Z 0)))
                      (of_usize (length (repeat (Some 1 : t) (S m)))))).
    rewrite Sum, repeat_length. reflexivity. }
  split; [exact Sum|]. split; [exact C|].
  intro E. rewrite C. unfold of_usize. rewrite E. vm_compute. reflexivity.
Qed.

End FullScale.

(** ** The paste of the development log *)

Section LogFacts.

Local Unset Implicit Arguments.

Import Log.

Lemma held_app (k : Key) (kb l : Keyboard) :
  held k (kb ++ l)
  = fold_left (fun h e => match e with
                          | KeyPress k' => if Key_eqb k k' then true else h
                          | KeyRelease k' => if Key_eqb k k' then false else h
                          | MouseMove => h
                          end) l (held k kb).
Proof. unfold held. apply fold_left_app. Qed.

(** X11: [simulate_paste] injects the events of a paste in order up to
    the first one that is refused and nothing after it, and returns [Ok]
    exactly when all four went through. *)
Theorem simulate_paste_injects_a_prefix (sim : Simulator) (kb : Keyboard) :
  exists n,
    n <= 4 /\
    fst (simulate_paste sim kb) = kb ++ firstn n paste_keys /\
    (snd (simulate_paste sim kb) = Ok tt <-> n = 4).
Proof.
  unfold simulate_paste, bind, simulate, ret.
  destruct (sim kb (KeyPress ControlLeft)) as [[]|m1].
  2: { exists 0. simpl. rewrite app_nil_r. repeat split; try lia; discriminate. }
  destruct (sim (kb ++ [KeyPress ControlLeft]) (KeyPress KeyV)) as [[]|m2].
  2: { exists 1. simpl. repeat split; try lia; discriminate. }
  destruct (sim ((kb ++ [KeyPress ControlLeft]) ++ [KeyPress KeyV]) (KeyRelease KeyV))
    as [[]|m3].
  2: { exists 2. simpl. rewrite <- app_assoc. repeat split; try lia; discriminate. }
  destruct (sim (((kb ++ [KeyPress ControlLeft]) ++ [KeyPress KeyV]) ++ [KeyRelease KeyV])
              (KeyRelease ControlLeft)) as [[]|m4].
  2: { exists 3. simpl. rewrite <- !app_assoc. repeat split; try lia; discriminate. }
  exists 4. simpl. rewrite <- !app_assoc. repeat split; lia.
Qed.

(** X12: when [simulate_paste] fails after its first event went
    through, it leaves the left Control key down: the release is never
    sent.  When it succeeds, both keys are up again. *)
Theorem simulate_paste_failure_leaves_control_down (sim : Simulator) (kb : Keyboard)
  (msg : string) :
  snd (simulate_paste sim kb) = Err msg ->
  fst (simulate_paste sim kb) <> kb ->
  held ControlLeft (fst (simulate_paste sim kb)) = true.
Proof.
  unfold simulate_paste, bind, simulate, ret.
  destruct (sim kb (KeyPress ControlLeft)) as [[]|m1].
  2: { simpl. intros _ N. exfalso. apply N. reflexivity. }
  destruct (sim (kb ++ [KeyPress ControlLeft]) (KeyPress KeyV)) as [[]|m2].
  2: { simpl. intros _ _. rewrite held_app. reflexivity. }
  destruct (sim ((kb ++ [KeyPress ControlLeft]) ++ [KeyPress KeyV]) (KeyRelease KeyV))
    as [[]|m3].
  2: { simpl. intros _ _. rewrite <- app_assoc, held_app. reflexivity. }
  destruct (sim (((kb ++ [KeyPress ControlLeft]) ++ [KeyPress KeyV]) ++ [KeyRelease KeyV])
              (KeyRelease ControlLeft)) as [[]|m4].
  2: { simpl. intros _ _. rewrite <- !app_assoc, held_app. reflexivity. }
  simpl. discriminate.
Qed.

End LogFacts.

(** ** The tray and the main window *)

Section TrayFacts.

Local Unset Implicit Arguments.

Import Tray.

Lemma handle_keeps (a : App) (i : WindowEnv * Event) :
  closed (handle a i) = closed a /\
  exited (handle a i) = exited a || is_quit i.
Proof.
  destruct i as [env event]. unfold handle, is_quit. simpl snd.
  destruct (exited a) eqn:X; [rewrite X; split; reflexivity|].
  destruct event as [e|e].
  - destruct e as [id| | |]; simpl; try (rewrite X; split; reflexivity).
    destruct (String.eqb id "show_hide") eqn:S.
    + apply String.eqb_eq in S. subst id. simpl.
      unfold is_visible, hide, show, set_focus.
      destruct (is_visible_ok env), (visible a), (hide_ok env), (show_ok env),
        (set_focus_ok env); simpl; rewrite ?X; split; reflexivity.
    + destruct (String.eqb id "quit"); simpl; rewrite ?X; split; reflexivity.
  - destruct e; simpl; unfold hide; try destruct (hide_ok env); simpl; rewrite ?X;
      split; reflexivity.
Qed.

Lemma handles_keep (events : list (WindowEnv * Event)) :
  forall a : App,
    closed (fold_left handle events a) = closed a /\
    exited (fold_left handle events a) = exited a || existsb is_quit events.
Proof.
  induction events as [|i l IH]; intro a; simpl.
  - rewrite orb_false_r. split; reflexivity.
  - destruct (IH (handle a i)) as [C X]. destruct (handle_keeps a i) as [C1 X1].
    rewrite C, X, C1, X1, orb_assoc. split; reflexivity.
Qed.

(** X13: the process ends exactly when the tray item [quit] is
    clicked, and the main window is never closed: a close request hides
    it, if the window can be hidden, and is always prevented. *)
Theorem only_quit_ends_the_process (env0 env : WindowEnv) (a : App)
  (events : list (WindowEnv * Event)) :
  closed a = false -> exited a = false ->
  exited (run env0 a events) = existsb is_quit events /\
  closed (run env0 a events) = false /\
  (exited (run env0 a events) = false -> hide_ok env = true ->
   visible (handle (run env0 a events) (env, OnWindow CloseRequested)) = false /\
   closed (handle (run env0 a events) (env, OnWindow CloseRequested)) = false).
Proof.
  intros C X. unfold run.
  destruct (handles_keep events (setup env0 a)) as [C1 X1].
  assert (S : closed (setup env0 a) = false /\ exited (setup env0 a) = false).
  { unfold setup, hide. destruct (hide_ok env0); split; assumption. }
  destruct S as [SC SX]. rewrite SC in C1. rewrite SX in X1. simpl in X1.
  split; [exact X1|]. split; [exact C1|].
  set (b := fold_left handle events (setup env0 a)) in *.
  intros R H. unfold handle. rewrite R. simpl. unfold hide. rewrite H. simpl.
  split; [reflexivity | exact C1].
Qed.

End TrayFacts.

(** ** The level bar *)

Section ClampFacts.

Local Unset Implicit Arguments.
Local Open Scope Q_scope.

Import Frontend.

Lemma clamped_fraction (q : Q) :
  0 <= q -> q <= 1 -> clamped (Some (Fin q)) = Fin q.
Proof.
  intros L U. unfold clamped, ToNumber, Math_max, Math_min, js_lt.
  apply Qle_bool_iff in L. rewrite L. simpl.
  apply Qle_bool_iff in U. rewrite U. reflexivity.
Qed.

(** X14: the height of the level bar is a fraction of its track
    whatever the level is, unless the level is NaN: a level below zero,
    and [null], give an empty bar, a level above one a full bar, and a
    level in [[0, 1]] is kept as it is. *)
Theorem clamped_is_a_fraction (level : Level) :
  match ToNumber level with
  | NaN => clamped level = NaN
  | PosInf => clamped level = Fin 1
  | NegInf => clamped level = Fin 0
  | Fin q =>
      clamped level = Fin (if Qle_bool 0 q then if Qle_bool q 1 then q else 1 else 0) /\
      exists q', clamped level = Fin q' /\ 0 <= q' <= 1
  end /\
  clamped None = Fin 0.
Proof.
  split; [|reflexivity].
  unfold clamped. destruct (ToNumber level) as [| | |q]; try reflexivity.
  unfold Math_max, Math_min, js_lt.
  destruct (Qle_bool 0 q) eqn:L; simpl.
  - destruct (Qle_bool q 1) eqn:U; simpl.
    + split; [reflexivity|]. exists q. split; [reflexivity|].
      apply Qle_bool_iff in L, U. split; assumption.
    + split; [reflexivity|]. exists 1. split; [reflexivity|]. split; discriminate.
  - split; [reflexivity|]. exists 0. split; [reflexivity|]. split; discriminate.
Qed.

End ClampFacts.

Section FrontendFacts.

Local Unset Implicit Arguments.

Context {W : @WhisperApi Binary32.arith} {T : Type} {ST : @Sample Binary32.arith T}.

Import Frontend.

Lemma level_passes (buf : list Binary32.t) :
  Forall (Binary32.within (-1) 1) buf -> (Z.of_nat (length buf) < 2 ^ 64)%Z ->
  exists q, level_payload (compute_rms (A := Binary32.arith) buf) = Some (Fin q) /\
            clamped (level_payload (compute_rms (A := Binary32.arith) buf)) = Fin q.
Proof.
  intros F B. destruct (compute_rms_unit buf F B) as [x [E [L U]]].
  exists x. rewrite E. split; [reflexivity|]. apply clamped_fraction; assumption.
Qed.

(** X15: while the samples that the callbacks deliver are normalized,
    fewer than [2 ^ 64] in all, every level that the backend emits
    reaches the bar as a finite number and passes the clamp unchanged. *)
Theorem backend_levels_pass_the_clamp (inputs : list (Input T)) :
  Forall normalized_input inputs ->
  (Z.of_nat (length (all_samples inputs)) < 2 ^ 64)%Z ->
  Forall (fun p => level_satisfies
                     (fun r => exists q, level_payload r = Some (Fin q) /\
                                         clamped (level_payload r) = Fin q)
                     (snd p))
         (emitted (run init inputs)).
Proof.
  intros N Len.
  apply (run_levels (Binary32.within (-1) 1) _ level_passes inputs init);
    simpl; try assumption; constructor.
Qed.

Lemma follow_stuck {P : Type} (next : P -> Notification -> option P)
  (l : list Notification) :
  fold_left (fun st n => match st with Some p => next p n | None => None end) l None
  = None.
Proof. induction l as [|n l IH]; [reflexivity | exact IH]. Qed.

Lemma listener_flag (l : list Notification) :
  forall (v : View) (b b' : bool),
    isRecording v = b -> follow next_flag b l = Some b' ->
    isRecording (fold_left listener l v) = b'.
Proof.
  induction l as [|n l IH]; intros v b b' V F.
  - injection F as <-. exact V.
  - unfold follow in F. simpl in F.
    destruct (next_flag b n) as [b1|] eqn:E; [|rewrite follow_stuck in F; discriminate].
    apply (IH (listener v n) b1 b'); [|exact F].
    destruct n, b; simpl in E |- *; try discriminate; try (injection E as <-);
      try reflexivity; rewrite V; reflexivity.
Qed.

(** X16: once the listeners have received the notifications of a run,
    [isRecording] in the frontend is the recording flag of the backend,
    and the level bar is drawn exactly when the backend is recording. *)
Theorem view_mirrors_recording_flag (inputs : list (Input T)) (v : View) :
  isRecording v = false ->
  isRecording (deliver v (emitted (run init inputs))) = is_recording (run init inputs) /\
  (WaveformOverlay (audioLevel (deliver v (emitted (run init inputs))))
                   (isRecording (deliver v (emitted (run init inputs)))) = None
   <-> is_recording (run init inputs) = false).
Proof.
  intro V.
  assert (E : isRecording (deliver v (emitted (run init inputs)))
              = is_recording (run init inputs)).
  { unfold deliver. apply (listener_flag _ v false _ V).
    exact (inv_flag (Invariant_reachable inputs)). }
  split; [exact E|]. rewrite E. unfold WaveformOverlay.
  destruct (is_recording (run init inputs)); simpl; split; congruence.
Qed.



End FrontendFacts.

(** ** The overlay window *)

Section OverlayFacts.

Local Unset Implicit Arguments.

Import Overlay.

Ltac by_name :=
  repeat match goal with
         | |- context [String.eqb ?a ?b] =>
             let E := fresh "E" in
             destruct (String.eqb a b) eqn:E;
             [apply String.eqb_eq in E; subst; simpl|]
         end.

(** X18: the listeners that are registered twice, on the application
    and on the window, do the same thing, and every listener may run
    twice: an event that arrives on both channels, in either order, or
    twice on one, leaves the overlay as one arrival on the application
    channel, or on that one, would. *)
Theorem both_channels_as_one (m : Model) (e : Event) :
  listener (listener m (Global, e)) (WindowSpecific, e) = listener m (Global, e) /\
  listener (listener m (WindowSpecific, e)) (Global, e) = listener m (Global, e) /\
  (forall ch, listener (listener m (ch, e)) (ch, e) = listener m (ch, e)).
Proof.
  destruct e as [name payload]. unfold listener. simpl.
  repeat split; [| |intros []]; by_name; reflexivity.
Qed.

Lemma listener_ignores (m : Model) (i : Channel * Event) :
  sets_state i = false -> listener m i = m.
Proof.
  destruct i as [[] [name payload]]; unfold sets_state, listener; simpl;
    by_name; simpl; try discriminate; reflexivity.
Qed.

Lemma run_ignores (l : list (Channel * Event)) :
  forall m : Model,
    forallb (fun x => negb (sets_state x)) l = true -> run m l = m.
Proof.
  induction l as [|i l IH]; intros m F; [reflexivity|].
  simpl in F. apply andb_true_iff in F. destruct F as [Fi Fl].
  apply negb_true_iff in Fi.
  unfold run. simpl. rewrite (listener_ignores m i Fi). apply IH. exact Fl.
Qed.

Lemma listener_decides (m m' : Model) (i : Channel * Event) :
  sets_state i = true ->
  state (listener m i) = state (listener m' i) /\
  label (listener m i) = label (listener m' i).
Proof.
  destruct i as [[] [name payload]]; unfold sets_state, listener, label; simpl;
    by_name; simpl; try discriminate; split; reflexivity.
Qed.

(** X19: what the overlay shows is decided by the last event that has a
    listener setting the state: neither the events before it nor the
    events after it, [recording_stopped] among them, change the state or
    the line of text. *)
Theorem overlay_follows_last_event (m : Model) (before after : list (Channel * Event))
  (i : Channel * Event) :
  sets_state i = true ->
  forallb (fun x => negb (sets_state x)) after = true ->
  state (run m (before ++ i :: after)) = state (listener initial i) /\
  label (run m (before ++ i :: after)) = label (listener initial i).
Proof.
  intros S F. unfold run. rewrite fold_left_app. simpl.
  fold (run (listener (fold_left listener before m) i) after).
  rewrite (run_ignores after _ F). apply listener_decides. exact S.
Qed.

(** X20: the line of text of the overlay is never blank: an error
    whose message is empty or [null] is shown as [Error occurred]. *)
Theorem overlay_line_is_never_blank (m : Model) :
  label m <> Some (JsStr []) /\
  label m <> Some JsNull /\
  (state m = error -> truthy (errorMessage m) = false ->
   label m = Some (JsStr (lit "Error occurred"))).
Proof.
  unfold label, js_or. destruct (state m); repeat split; try discriminate.
  - destruct (truthy (errorMessage m)) eqn:E; [|discriminate].
    intro H. injection H as H. rewrite H in E. discriminate.
  - destruct (truthy (errorMessage m)) eqn:E; [|discriminate].
    intro H. injection H as H. rewrite H in E. discriminate.
  - intros _ E. rewrite E. reflexivity.
Qed.

End OverlayFacts.

(** ** The activity log *)

Section AppFacts.

Local Unset Implicit Arguments.

Import App.

Ltac by_name :=
  repeat match goal with
         | |- context [String.eqb ?a ?b] =>
             let E := fresh "E" in
             destruct (String.eqb a b) eqn:E;
             [apply String.eqb_eq in E; subst; simpl|]
         end.

Lemma handle_logged (m : Model) (now : Z) (a : Action) :
  activities (handle m (now, a))
  = match logged a with
    | Some (ty, msg) =>
        {| id := plus_one (activityId m); type := ty; message := msg; timestamp := now |}
        :: slice_0_49 (activities m)
    | None => activities m
    end /\
  activityId (handle m (now, a))
  = match logged a with
    | Some _ => plus_one (activityId m)
    | None => activityId m
    end.
Proof.
  destruct a as [name payload|ty msg]; [|split; reflexivity].
  unfold handle, logged. by_name; split; reflexivity.
Qed.

Lemma numbered_snoc (l : list (Z * Action)) (now : Z) (a : Action) :
  forall k : N,
    numbered k (l ++ [(now, a)])
    = numbered k l
      ++ match logged a with
         | Some (ty, msg) =>
             [{| id := k + N.of_nat (length (numbered k l)) + 1; type := ty;
                 message := msg; timestamp := now |}]
         | None => []
         end.
Proof.
  induction l as [|[now' a'] l IH]; intro k.
  - simpl. destruct (logged a) as [[ty msg]|]; [|reflexivity].
    rewrite N.add_0_r. reflexivity.
  - cbn [app numbered]. destruct (logged a') as [[ty' msg']|].
    + rewrite IH. cbn [app length]. f_equal.
      destruct (logged a) as [[ty msg]|]; [|reflexivity].
      do 3 f_equal. lia.
    + apply IH.
Qed.

Lemma numbered_length (l : list (Z * Action)) :
  forall k : N, length (numbered k l) <= length l.
Proof.
  induction l as [|[now a] l IH]; intro k; [simpl; lia|].
  simpl. destruct (logged a) as [[ty msg]|].
  - simpl. specialize (IH (k + 1)%N). lia.
  - specialize (IH k). lia.
Qed.

(** X21: the activity log holds the last fifty activities, newest
    first, each with the number of its arrival: the identifiers in the
    log are distinct and fall by one from each item to the next (as long
    as at most [2 ^ 53] actions have come in, after which the counter
    stops). *)
Theorem activities_are_the_last_fifty (actions : list (Z * Action)) :
  (N.of_nat (length actions) <= 2 ^ 53)%N ->
  activities (run initial actions) = firstn 50 (rev (numbered 0 actions)) /\
  activityId (run initial actions) = N.of_nat (length (numbered 0 actions)) /\
  length (activities (run initial actions)) <= 50.
Proof.
  induction actions as [|[now a] l IH] using rev_ind; intro B.
  - repeat split. simpl. lia.
  - rewrite length_app in B. simpl in B.
    destruct IH as [IHa [IHi _]]; [lia|].
    assert (R : run initial (l ++ [(now, a)]) = handle (run initial l) (now, a)).
    { unfold run. rewrite fold_left_app. reflexivity. }
    rewrite R. clear R.
    destruct (handle_logged (run initial l) now a) as [Ha Hi].
    rewrite Ha, Hi, numbered_snoc. clear Ha Hi.
    pose proof (numbered_length l 0) as NL.
    destruct (logged a) as [[ty msg]|].
    + rewrite IHa, IHi. unfold plus_one.
      assert (X : (N.of_nat (length (numbered 0 l)) <? 2 ^ 53)%N = true).
      { apply N.ltb_lt. lia. }
      rewrite X. rewrite rev_app_distr. simpl rev. simpl app.
      unfold slice_0_49. rewrite firstn_firstn. simpl Nat.min.
      change (firstn 50 (?x :: ?r)) with (x :: firstn 49 r).
      rewrite ?N.add_0_l.
      split; [reflexivity|]. split.
      * rewrite length_app. simpl. lia.
      * cbn [length]. rewrite length_firstn. lia.
    + rewrite app_nil_r. split; [exact IHa|]. split; [exact IHi|].
      rewrite IHa, length_firstn. lia.
Qed.


End AppFacts.

(** ** The text of a transcript *)

Section Segments.

Local Unset Implicit Arguments.

Context {A : F32Arith} {W : WhisperApi}.

Lemma push_segments_concat (c : WhisperContext) (n : nat) :
  forall (i : nat) (out : text),
    push_segments c (Z.of_nat i) n out
    = out ++ concat (map (fun k => unwrap_or_default (full_get_segment_text c (Z.of_nat k)))
                         (seq i n)).
Proof.
  induction n as [|n IH]; intros i out.
  - simpl. rewrite app_nil_r. reflexivity.
  - cbn [push_segments seq map concat].
    replace (Z.of_nat i + 1)%Z with (Z.of_nat (S i)) by lia.
    rewrite IH, <- app_assoc. reflexivity.
Qed.

(** X23: when the inference succeeds, the transcript is the
    concatenation of the segments of the context as the inference left
    it, in order, a segment that cannot be read counting as empty, with
    the white space at both ends removed; a segment count that is not
    positive gives the empty transcript. *)
Theorem transcript_is_trimmed_concatenation (samples : list f32) (ws : WhisperState)
  (c c' : WhisperContext) (u : unit) :
  ctx ws = Some c ->
  full c params samples = (c', Ok u) ->
  run_text (run_whisper_on_buffer samples ws)
  = Some (trim (concat (map (fun k => unwrap_or_default
                                        (full_get_segment_text c' (Z.of_nat k)))
                            (seq 0 (Z.to_nat (full_n_segments c')))))) /\
  ((full_n_segments c' <= 0)%Z -> run_text (run_whisper_on_buffer samples ws) = Some []).
Proof.
  intros C F. unfold run_whisper_on_buffer. rewrite C, F. cbn [run_text].
  change 0%Z with (Z.of_nat 0).
  rewrite (push_segments_concat c' (Z.to_nat (full_n_segments c')) 0 []).
  split; [reflexivity|].
  intro N. replace (Z.to_nat (full_n_segments c')) with 0 by lia. reflexivity.
Qed.

End Segments.

(** ** Setting the model from the frontend *)

Section ModelSettingsFacts.

Local Unset Implicit Arguments.

Context {A : F32Arith} {W : WhisperApi}.

(** X25: the status line of the model settings says [Model loaded]
    exactly when the backend has taken the model: then the backend holds
    a context and records the path typed in; otherwise the status starts
    with [Error: ] and the backend keeps the model it had. *)
Theorem status_tells_whether_model_loaded (modelPath : string) (ws : WhisperState) :
  (snd (onSetModel modelPath ws) = "Model loaded"%string <-> loads modelPath = true) /\
  (loads modelPath = true ->
   model_path (fst (onSetModel modelPath ws)) = Some modelPath /\
   ctx (fst (onSetModel modelPath ws)) <> None) /\
  (loads modelPath = false ->
   fst (onSetModel modelPath ws) = ws /\
   exists e, WhisperContext_new modelPath = Err e /\
             snd (onSetModel modelPath ws) = ("Error: " ++ e)%string).
Proof.
  unfold onSetModel, set_active_model, loads.
  destruct (WhisperContext_new modelPath) as [c|e]; simpl.
  - split; [split; reflexivity|]. split; [|discriminate].
    intros _. split; [reflexivity | discriminate].
  - split; [split; discriminate|]. split; [discriminate|].
    intros _. split; [reflexivity|]. exists e. split; reflexivity.
Qed.

End ModelSettingsFacts.

(** ** The properties at work *)



Lemma full_scale_level_is_one_witness :
  0 < 3 /\ (Z.of_nat 3 <= 2 ^ 24)%Z /\
  compute_rms (A := Binary32.arith) (repeat (Some 1%Q) 3) = Some 1%Q.
Proof.
  assert (P : 0 < 3) by lia.
  assert (U : (Z.of_nat 3 <= 2 ^ 24)%Z) by lia.
  split; [exact P|]. split; [exact U|].
  exact (full_scale_level_is_one 3 P U).
Defined.

Lemma full_scale_sum_stalls_witness :
  (2 ^ 24 <= Z.of_nat (Z.to_nat (2 ^ 26)))%Z /\
  Z.of_nat (Z.to_nat (2 ^ 26)) = (2 ^ 26)%Z /\
  compute_rms (A := Binary32.arith) (repeat (Some 1%Q) (Z.to_nat (2 ^ 26)))
  = Some (1 # 2)%Q.
Proof.
  assert (E : Z.of_nat (Z.to_nat (2 ^ 26)) = (2 ^ 26)%Z) by (apply Z2Nat.id; lia).
  assert (L : (2 ^ 24 <= Z.of_nat (Z.to_nat (2 ^ 26)))%Z) by (rewrite E; lia).
  split; [exact L|]. split; [exact E|].
  exact (proj2 (proj2 (full_scale_sum_stalls (Z.to_nat (2 ^ 26)) L)) E).
Defined.

Lemma simulate_paste_failure_leaves_control_down_witness :
  snd (Log.simulate_paste (Log.refuses_after 0 2) [])
  = Err "simulate failed"%string /\
  fst (Log.simulate_paste (Log.refuses_after 0 2) []) <> [] /\
  Log.held ControlLeft (fst (Log.simulate_paste (Log.refuses_after 0 2) [])) = true.
Proof.
  assert (E : snd (Log.simulate_paste (Log.refuses_after 0 2) [])
              = Err "simulate failed"%string) by reflexivity.
  assert (N : fst (Log.simulate_paste (Log.refuses_after 0 2) []) <> [])
    by discriminate.
  split; [exact E|]. split; [exact N|].
  exact (simulate_paste_failure_leaves_control_down _ _ _ E N).
Defined.

Lemma only_quit_ends_the_process_witness :
  let events := [(Tray.all_ok, Tray.OnWindow Tray.CloseRequested);
                 (Tray.all_ok, Tray.OnSystemTray (Tray.MenuItemClick "show_hide"))] in
  Tray.closed Tray.created = false /\
  Tray.exited Tray.created = false /\
  Tray.exited (Tray.run Tray.all_ok Tray.created events) = existsb Tray.is_quit events /\
  Tray.closed (Tray.run Tray.all_ok Tray.created events) = false /\
  (Tray.exited (Tray.run Tray.all_ok Tray.created events) = false ->
   Tray.hide_ok Tray.all_ok = true ->
   Tray.visible (Tray.handle (Tray.run Tray.all_ok Tray.created events)
                   (Tray.all_ok, Tray.OnWindow Tray.CloseRequested)) = false /\
   Tray.closed (Tray.handle (Tray.run Tray.all_ok Tray.created events)
                  (Tray.all_ok, Tray.OnWindow Tray.CloseRequested)) = false).
Proof.
  cbv zeta. split; [reflexivity|]. split; [reflexivity|].
  apply only_quit_ends_the_process; reflexivity.
Defined.

Lemma backend_levels_pass_the_clamp_witness :
  let inputs := [Stub.toggle; InputData [Some (1 # 2)%Q; Some (-1 # 4)%Q];
                 InputData [Some 0%Q]; Stub.toggle] in
  Forall normalized_input inputs /\
  (Z.of_nat (length (all_samples inputs)) < 2 ^ 64)%Z /\
  Forall (fun p => level_satisfies
                     (fun r => exists q, Frontend.level_payload r = Some (Fin q) /\
                                         Frontend.clamped (Frontend.level_payload r) = Fin q)
                     (snd p))
         (emitted (run (W := Stub.api) init inputs)).
Proof.
  cbv zeta.
  assert (N : Forall normalized_input
                [Stub.toggle; InputData [Some (1 # 2)%Q; Some (-1 # 4)%Q];
                 InputData [Some 0%Q]; Stub.toggle]).
  { repeat constructor;
      (eexists; split; [reflexivity | split; discriminate]). }
  assert (B : (Z.of_nat (length (all_samples
                [Stub.toggle; InputData [Some (1 # 2)%Q; Some (-1 # 4)%Q];
                 InputData [Some 0%Q]; Stub.toggle])) < 2 ^ 64)%Z)
    by reflexivity.
  split; [exact N|]. split; [exact B|].
  exact (backend_levels_pass_the_clamp (W := Stub.api) _ N B).
Defined.

Lemma view_mirrors_recording_flag_witness :
  let inputs := [Stub.toggle; InputData [Stub.half]] in
  let v := {| Frontend.isRecording := false; Frontend.audioLevel := None;
              Frontend.lastTranscript := None |} in
  Frontend.isRecording v = false /\
  Frontend.isRecording (Frontend.deliver v (emitted (run (W := Stub.api) init inputs)))
  = is_recording (run (W := Stub.api) init inputs) /\
  (Frontend.WaveformOverlay
     (Frontend.audioLevel (Frontend.deliver v (emitted (run (W := Stub.api) init inputs))))
     (Frontend.isRecording (Frontend.deliver v (emitted (run (W := Stub.api) init inputs))))
   = None
   <-> is_recording (run (W := Stub.api) init inputs) = false).
Proof.
  cbv zeta. split; [reflexivity|].
  apply (view_mirrors_recording_flag (W := Stub.api)). reflexivity.
Defined.


Lemma overlay_follows_last_event_witness :
  let started := {| Overlay.name := "recording_started"; Overlay.payload := JsNull |} in
  let stopped := {| Overlay.name := "recording_stopped"; Overlay.payload := JsNull |} in
  let failed := {| Overlay.name := "transcription_error"; Overlay.payload := JsNull |} in
  let before := [(Overlay.Global, started)] in
  let after := [(Overlay.Global, stopped); (Overlay.WindowSpecific, started)] in
  Overlay.sets_state (Overlay.WindowSpecific, failed) = true /\
  forallb (fun x => negb (Overlay.sets_state x)) after = true /\
  Overlay.state (Overlay.run Overlay.initial
                   (before ++ (Overlay.WindowSpecific, failed) :: after))
  = Overlay.state (Overlay.listener Overlay.initial (Overlay.WindowSpecific, failed)) /\
  Overlay.label (Overlay.run Overlay.initial
                   (before ++ (Overlay.WindowSpecific, failed) :: after))
  = Overlay.label (Overlay.listener Overlay.initial (Overlay.WindowSpecific, failed)).
Proof.
  cbv zeta. split; [reflexivity|]. split; [reflexivity|].
  apply overlay_follows_last_event; reflexivity.
Defined.

Lemma activities_are_the_last_fifty_witness :
  let actions := [(0%Z, App.Listen "recording_started" JsNull);
                  (5%Z, App.Listen "hotkey_event" (JsStr (lit "RightCtrl")));
                  (9%Z, App.Listen "transcription_done" (JsStr (lit "hi")))] in
  (N.of_nat (length actions) <= 2 ^ 53)%N /\
  App.activities (App.run App.initial actions)
  = firstn 50 (rev (App.numbered 0 actions)) /\
  App.activityId (App.run App.initial actions)
  = N.of_nat (length (App.numbered 0 actions)) /\
  length (App.activities (App.run App.initial actions)) <= 50.
Proof.
  cbv zeta.
  assert (B : (N.of_nat (length
                 [(0%Z, App.Listen "recording_started" JsNull);
                  (5%Z, App.Listen "hotkey_event" (JsStr (lit "RightCtrl")));
                  (9%Z, App.Listen "transcription_done" (JsStr (lit "hi")))])
               <= 2 ^ 53)%N) by (simpl; lia).
  split; [exact B|].
  exact (activities_are_the_last_fifty _ B).
Defined.

Lemma transcript_is_trimmed_concatenation_witness :
  ctx (whisper_state Stub.loaded) = Some [] /\
  full (WhisperApi := Stub.api) [] params [Stub.half] = ([Stub.heard], Ok tt) /\
  run_text (run_whisper_on_buffer (W := Stub.api) [Stub.half] (whisper_state Stub.loaded))
  = Some (trim (concat (map (fun k => unwrap_or_default
                                        (full_get_segment_text (WhisperApi := Stub.api)
                                           [Stub.heard] (Z.of_nat k)))
                            (seq 0 (Z.to_nat (full_n_segments (WhisperApi := Stub.api)
                                                [Stub.heard])))))) /\
  ((full_n_segments (WhisperApi := Stub.api) [Stub.heard] <= 0)%Z ->
   run_text (run_whisper_on_buffer (W := Stub.api) [Stub.half] (whisper_state Stub.loaded))
   = Some []).
Proof.
  split; [reflexivity|]. split; [reflexivity|].
  apply (transcript_is_trimmed_concatenation (W := Stub.api) [Stub.half]
           (whisper_state Stub.loaded) [] [Stub.heard] tt); reflexivity.
Defined.


